(** * MCD10A1: fused MODIS snow cover, snow melt / accumulation dates

    A shallow embedding of [MCD10A1.js], an Earth Engine script that fuses
    the Terra and Aqua daily snow-cover streams, encodes threshold
    crossings as day-of-year values, reduces each year to a melt and an
    accumulation date and derives a season length, a mask and a trend
    layer.

    Earth Engine images are unbounded rasters: every pixel carries a value
    and a mask.  A pixel is modelled as [option]: [None] is a masked pixel,
    [Some v] a valid pixel of value [v].  An image is a function from
    pixels to such cells together with its [system:time_start] property;
    an image collection is a list of images.  All image operations of the
    script work pixel by pixel, and are written here as they are chained in
    the source.  Cover values and days of year are integers ([Z]); day
    differences, the median and the trend are fractions ([Q]).  The
    charts, the renaming of bands for export and the regression itself
    are left out: the trend enters the masking stage as an input. *)

From Stdlib Require Import String DecimalString DecimalPos DecimalZ.
From Stdlib Require Import ZArith QArith List Finite Sorted Bool Lia.
Import ListNotations.

Local Open Scope Z_scope.

(** ** Rasters, images, collections *)

Definition pixel : Type := (Z * Z)%type.

Definition raster (A : Type) : Type := pixel -> option A.

(** A single-band image. *)
Record Image : Type := mkImage {
  time_start : Z;
  band : raster Z
}.

(** The element of an inner join: [feature.get('primary')] and
    [feature.get('secondary')]. *)
Record Feature : Type := mkFeature {
  primary : Image;
  secondary : Image
}.

(** The two-band image built by [ee.Image.cat] from the two sides of a
    join; the properties are those of the first image.  For the daily
    join the bands are [NDSI_Snow_Cover] (Terra, primary) and
    [NDSI_Snow_Cover_1] (Aqua, secondary), for the yearly join [snowmelt]
    (primary) and [snowacc] (secondary). *)
Record Image2 : Type := mkImage2 {
  time_start2 : Z;
  band_primary : raster Z;
  band_secondary : raster Z
}.

(** The two bands of [ee.Reducer.linearFit()]. *)
Record Fit : Type := mkFit {
  scale : raster Q;
  offset : raster Q
}.

(** The output of [ee.Reducer.minMax()]: bands [constant_min] and
    [constant_max]. *)
Record MinMax : Type := mkMinMax {
  constant_min : raster Z;
  constant_max : raster Z
}.

(** ** The Earth Engine operations the script uses, per pixel *)

Module EE.

(** [img.unmask(v)]: masked pixels become valid pixels of value [v]. *)
Definition unmask {A} (v : A) (r : raster A) : raster A :=
  fun p => match r p with
           | Some x => Some x
           | None => Some v
           end.

(** [img.updateMask(m)]: a pixel stays valid where the mask pixel is
    valid and not zero. *)
Definition updateMask {A} (r : raster A) (m : raster Z) : raster A :=
  fun p => match r p, m p with
           | Some x, Some k => if k =? 0 then None else Some x
           | _, _ => None
           end.

(** [img.mask(m)] as a setter: the mask of the image is replaced by
    [m].  A pixel is valid where the mask pixel is valid and not zero,
    whatever its own mask was; a pixel that was masked and becomes valid
    is filled with 0. *)
Definition mask (r : raster Q) (m : raster Z) : raster Q :=
  fun p => match m p with
           | Some k => if k =? 0 then None
                       else match r p with
                            | Some x => Some x
                            | None => Some (inject_Z 0)
                            end
           | None => None
           end.

(** Pixel-wise unary and binary operations: the result is masked where
    an operand is. *)
Definition map1 {A B} (f : A -> B) (r : raster A) : raster B :=
  fun p => option_map f (r p).

Definition map2 {A B C} (f : A -> B -> C) (r : raster A) (s : raster B)
  : raster C :=
  fun p => match r p, s p with
           | Some x, Some y => Some (f x y)
           | _, _ => None
           end.

Definition b2z (b : bool) : Z := if b then 1 else 0.

Definition max : raster Z -> raster Z -> raster Z := map2 Z.max.
Definition subtract : raster Z -> raster Z -> raster Z := map2 Z.sub.
Definition multiply : raster Z -> raster Z -> raster Z := map2 Z.mul.
Definition neq (r : raster Z) (k : Z) : raster Z :=
  map1 (fun x => b2z (negb (x =? k))) r.
Definition eq (r : raster Z) (k : Z) : raster Z :=
  map1 (fun x => b2z (x =? k)) r.

(** [toInt()]: truncation toward zero, saturating at the 32-bit range. *)
Definition truncate (q : Q) : Z := Z.quot (Qnum q) (Zpos (Qden q)).

Definition toInt (q : Q) : Z :=
  Z.max (- 2 ^ 31) (Z.min (2 ^ 31 - 1) (truncate q)).

(** [ee.Date(t).difference(start, 'day')]: the difference of two
    timestamps (milliseconds) in days, a fraction.  The library computes
    it in double precision; the exact quotient written here agrees with
    it on differences of whole days, which a double holds exactly. *)
Definition msPerDay : Z := 86400000.

Definition difference_day (t start : Z) : Q :=
  inject_Z (t - start) / inject_Z msPerDay.

(** The valid values of one pixel over a collection, in collection
    order: reducers skip masked pixels. *)
Fixpoint valid {A} (l : list (option A)) : list A :=
  match l with
  | [] => []
  | Some x :: l' => x :: valid l'
  | None :: l' => valid l'
  end.

Definition minimum (l : list Z) : option Z :=
  match l with
  | [] => None
  | x :: l' => Some (fold_left Z.min l' x)
  end.

Definition maximum (l : list Z) : option Z :=
  match l with
  | [] => None
  | x :: l' => Some (fold_left Z.max l' x)
  end.

(** [collection.reduce(ee.Reducer.minMax())]. *)
Definition reduce_minMax (c : list (raster Z)) : MinMax :=
  {| constant_min := fun p => minimum (valid (map (fun r => r p) c));
     constant_max := fun p => maximum (valid (map (fun r => r p) c)) |}.

(** [ee.Join.inner().apply(a, b, filterTimeEq)]: every pair of a
    primary and a secondary element that the filter accepts, in the
    order of the primary collection. *)
Definition innerJoin (filter : Image -> Image -> bool)
    (a b : list Image) : list Feature :=
  flat_map (fun x => map (mkFeature x) (List.filter (filter x) b)) a.

(** [collection.sort('system:time_start', true)]: a stable ascending
    sort. *)
Fixpoint insert_by {A} (key : A -> Z) (x : A) (l : list A) : list A :=
  match l with
  | [] => [x]
  | y :: l' => if key x <=? key y then x :: l else y :: insert_by key x l'
  end.

Definition sort_by {A} (key : A -> Z) (l : list A) : list A :=
  fold_right (insert_by key) [] l.

(** [ee.Reducer.median()] on the valid values of a pixel: the middle
    value, or the mean of the two middle values. *)
Definition median (l : list Z) : option Q :=
  let s := sort_by (fun x => x) l in
  let n := length s in
  match n with
  | O => None
  | _ =>
    if Nat.odd n then Some (inject_Z (nth (Nat.div2 n) s 0))
    else Some (Qdiv (Qplus (inject_Z (nth (Nat.div2 n - 1) s 0))
                           (inject_Z (nth (Nat.div2 n) s 0)))
                    (inject_Z 2))
  end.

(** [img.lt(k)] on a fractional raster. *)
Definition Qltb (x : Q) (k : Z) : bool := negb (Qle_bool (inject_Z k) x).

Definition lt (r : raster Q) (k : Z) : raster Z :=
  map1 (fun x => b2z (Qltb x k)) r.

End EE.

(** ** The functions of the script *)

(** [maxVal]: fuse the two bands of a joined image. *)
Definition maxVal (img : Image2) : Image :=
  let startTime := time_start2 img in
  (* 'b1 == 0 ? -10 : b1' on NDSI_Snow_Cover and on NDSI_Snow_Cover_1 *)
  let b1c := EE.map1 (fun b1 => if b1 =? 0 then -10 else b1) (band_primary img) in
  let b2c := EE.map1 (fun b1 => if b1 =? 0 then -10 else b1) (band_secondary img) in
  let maxval := EE.max (EE.unmask 0 b1c) (EE.unmask 0 b2c) in
  let maxval := EE.updateMask maxval (EE.neq maxval 0) in
  (* 'b1 == -10 ? 0 : b1' *)
  let maxval := EE.map1 (fun b1 => if b1 =? -10 then 0 else b1) maxval in
  {| time_start := startTime; band := maxval |}.

(** [concatBands]: [ee.Image.cat(primary, secondary)]. *)
Definition concatBands (feature : Feature) : Image2 :=
  {| time_start2 := time_start (primary feature);
     band_primary := band (primary feature);
     band_secondary := band (secondary feature) |}.

(** [filterTimeEq]: equal [system:time_start] on both sides. *)
Definition filterTimeEq (l r : Image) : bool :=
  time_start l =? time_start r.

(** [difference]: snow accumulation day minus snow melt day. *)
Definition difference (img : Image2) : Image :=
  let b1 := band_primary img in     (* img.select('snowmelt') *)
  let b2 := band_secondary img in   (* img.select('snowacc') *)
  let startTime := time_start2 img in
  {| time_start := startTime; band := EE.subtract b2 b1 |}.

(** The day of year of an image, one-based and relative to [start]:
    [ee.Date(image.get('system:time_start')).difference(start, 'day').add(1)]. *)
Definition doy (start : Z) (image : Image) : Q :=
  Qplus (EE.difference_day (time_start image) start) (inject_Z 1).

(** ['SNOW <= 5 ? DOY : 9999'], then [toInt()]. *)
Definition replacement (start : Z) (image : Image) : raster Z :=
  EE.map1 (fun SNOW =>
             EE.toInt (if SNOW <=? 5 then doy start image else inject_Z 9999))
          (band image).

(** [returnDoy]: the day of year where the cover is at most 5 per cent,
    masked elsewhere.  [start] is the global the year loop sets before it
    maps this function.  The result is the band of the returned image,
    whose properties the script never reads. *)
Definition returnDoy (start : Z) (image : Image) : raster Z :=
  let withObs := EE.neq (replacement start image) 9999 in
  EE.updateMask (replacement start image) withObs.

(** [reduce(ee.Reducer.minMax()).unmask(366)] on a collection of
    day-of-year rasters. *)
Definition reduceYear (c : list (raster Z)) : MinMax :=
  let mm := EE.reduce_minMax c in
  {| constant_min := EE.unmask 366 (constant_min mm);
     constant_max := EE.unmask 366 (constant_max mm) |}.

(** ** The year loop *)

(** The two stacks the loop grows. *)
Record Stacks : Type := mkStacks {
  snowMelt : list Image;
  snowAcc : list Image
}.

Section Main.

(** The catalog: for a year, the [NDSI_Snow_Cover] images of
    [MODIS/006/MOD10A1] and of [MODIS/006/MYD10A1] that [filterDate]
    keeps. *)
Variables terra aqua : Z -> list Image.

(** The years to process, [parseInt(t0)] and [parseInt(t1)]. *)
Variables t0 t1 : Z.

Definition terraCollection (i : Z) : list Image :=
  EE.sort_by time_start (terra i).

Definition aquaCollection (i : Z) : list Image :=
  EE.sort_by time_start (aqua i).

Definition innerJoinedCollection (i : Z) : list Feature :=
  EE.innerJoin filterTimeEq (terraCollection i) (aquaCollection i).

Definition joinedCollection (i : Z) : list Image2 :=
  map concatBands (innerJoinedCollection i).

Definition yearlyCollection (i : Z) : list Image :=
  map maxVal (joinedCollection i).

(** [yearlyCollection.first().get('system:time_start')]: fails on an
    empty collection. *)
Definition start (i : Z) : option Z :=
  match yearlyCollection i with
  | [] => None
  | img :: _ => Some (time_start img)
  end.

Definition doyCollection (i : Z) : option (list (raster Z)) :=
  match start i with
  | None => None
  | Some s => Some (map (returnDoy s) (yearlyCollection i))
  end.

(** [doyCollection.reduce(ee.Reducer.minMax()).unmask(366)]. *)
Definition snowMeltAcc (i : Z) : option MinMax :=
  match doyCollection i with
  | None => None
  | Some c => Some (reduceYear c)
  end.

(** The melt and the accumulation day of a year, computed from that
    year's daily series alone. *)
Definition melt (i : Z) : raster Z :=
  fun p => match snowMeltAcc i with
           | Some mm => constant_min mm p
           | None => None
           end.

Definition acc (i : Z) : raster Z :=
  fun p => match snowMeltAcc i with
           | Some mm => constant_max mm p
           | None => None
           end.

(** The layers of a year in the two stacks, tagged with the year. *)
Definition meltImage (i : Z) : Image := {| time_start := i; band := melt i |}.

Definition accImage (i : Z) : Image := {| time_start := i; band := acc i |}.

(** One pass of the loop body on the stacks built so far.  The source
    tests [evalYear == t0] on the texts; for a setting [t0] that is the
    decimal text of its number, as in the source, this is the test on
    the numbers written here ([stacks_text] below keeps the texts). *)
Definition loop_body (st : Stacks) (i : Z) : option Stacks :=
  match snowMeltAcc i with
  | None => None
  | Some mm =>
    let tmpMelt := {| time_start := i; band := constant_min mm |} in
    let tmpAcc := {| time_start := i; band := constant_max mm |} in
    if i =? t0 then
      Some {| snowMelt := [tmpMelt]; snowAcc := [tmpAcc] |}
    else
      Some {| snowMelt := snowMelt st ++ [tmpMelt];
              snowAcc := snowAcc st ++ [tmpAcc] |}
  end.

(** [for (i = t0; i <= t1; ++i)]. *)
Definition years : list Z :=
  map (fun k => t0 + Z.of_nat k) (seq 0 (Z.to_nat (t1 - t0 + 1))).

Fixpoint loop (st : Stacks) (l : list Z) : option Stacks :=
  match l with
  | [] => Some st
  | i :: l' =>
    match loop_body st i with
    | None => None
    | Some st' => loop st' l'
    end
  end.

(** The stacks after the loop; with no pass the two variables are
    undefined and the script stops. *)
Definition stacks : option Stacks :=
  if t1 <? t0 then None
  else loop {| snowMelt := []; snowAcc := [] |} years.

(** ** After the loop: season length, mask, masked trend *)

Definition snowFree (st : Stacks) : list Image :=
  map difference
      (map concatBands
           (EE.innerJoin filterTimeEq (snowMelt st) (snowAcc st))).

Definition snowFreeMedian (st : Stacks) : raster Q :=
  fun p => EE.median (EE.valid (map (fun img => band img p) (snowFree st))).

Definition snowFreeMask (st : Stacks) : raster Z :=
  EE.lt (snowFreeMedian st) 306.

(** The [datamask] band of the Hansen image (1 = land). *)
Variable data : raster Z.

Definition waterMask : raster Z := EE.eq data 1.

Definition mask (st : Stacks) : raster Z :=
  EE.multiply waterMask (snowFreeMask st).

(** The regression of the melt day on the year is a floating-point
    least-squares fit; what follows holds for any of its outputs. *)
Variable linearFit : Fit.

Definition multiply_mask (r : raster Q) (m : raster Z) : raster Q :=
  EE.map2 (fun x k => Qmult x (inject_Z k)) r m.

Definition filteredFit (st : Stacks) : Fit :=
  {| scale := multiply_mask (scale linearFit) (mask st);
     offset := multiply_mask (offset linearFit) (mask st) |}.

(** The layer added to the map, [linearFit.mask(mask)]. *)
Definition fit_layer (st : Stacks) : Fit :=
  {| scale := EE.mask (scale linearFit) (mask st);
     offset := EE.mask (offset linearFit) (mask st) |}.

End Main.

(** ** Auxiliary definitions and sample inputs *)

(** The value a pixel contributes to the maximum: zero recoded to -10,
    a masked pixel unmasked to zero. *)
Definition recoded (c : option Z) : Z :=
  match c with
  | Some v => if v =? 0 then -10 else v
  | None => 0
  end.

(** A day on which Terra reads a valid 0 and Aqua is masked, everywhere. *)
Definition zero_and_masked : Image2 :=
  {| time_start2 := 0;
     band_primary := fun _ => Some 0;
     band_secondary := fun _ => None |}.

(** A pixel that no image of either sensor observes in year [i]. *)
Definition masked_all_year (terra aqua : Z -> list Image) (p : pixel)
    (i : Z) : Prop :=
  forall img, In img (terra i) \/ In img (aqua i) -> band img p = None.

(** A small catalog: three days a year; pixel (0,0) is observed, every
    other pixel is masked on every day of both sensors. *)
Definition observed (day cover : Z) : Image :=
  {| time_start := day * 86400000;
     band := fun p => match p with
                      | (0, 0) => Some cover
                      | _ => None
                      end |}.

Definition terra_sample (i : Z) : list Image :=
  [observed 0 20; observed 1 3; observed 2 0].

Definition aqua_sample (i : Z) : list Image :=
  [observed 0 40; observed 1 0; observed 2 4].

(** The third day of a year: two whole days after [start], cover 3. *)
Definition day3 : Image :=
  {| time_start := 2 * 86400000; band := fun _ => Some 3 |}.

(** An image with its bands by name and its [system:time_start]
    property, when it has one. *)
Record EEImage : Type := mkEEImage {
  property_time_start : option Z;
  bands : list (string * raster Z)
}.

(** [image.select(name)]; there may be no band of that name. *)
Definition select (name : string) (image : EEImage) : option (raster Z) :=
  option_map snd (find (fun b => String.eqb (fst b) name) (bands image)).

(** An image of the fused series: the band [NDSI_Snow_Cover] and the
    timestamp [maxVal] sets. *)
Definition fusedImage (img : Image) : EEImage :=
  {| property_time_start := Some (time_start img);
     bands := [("NDSI_Snow_Cover"%string, band img)] |}.

(** [returnDoy] with the names it reads and writes.  It reads the
    property [system:time_start] and the band [NDSI_Snow_Cover] and
    fails when one of them is missing.  The image it returns has the
    single band [constant] (the year reducer names its outputs
    [constant_min] and [constant_max]) and no [system:time_start]: the
    function does not set one, as [maxVal] and [difference] do. *)
Definition returnDoy_image (start : Z) (image : EEImage) : option EEImage :=
  match property_time_start image, select "NDSI_Snow_Cover" image with
  | Some t, Some SNOW =>
    Some {| property_time_start := None;
            bands := [("constant"%string,
                       returnDoy start {| time_start := t; band := SNOW |})] |}
  | _, _ => None
  end.

(** The tenth day of a year, cover 3. *)
Definition day10 : Image :=
  {| time_start := 9 * 86400000; band := fun _ => Some 3 |}.

(** ** The time band and the points of the regression *)

(** The image [createTimeBand] returns: the band [snowmelt] and a band
    [system:time_start]. *)
Record TimeBanded : Type := mkTimeBanded {
  tb_time_start : Z;
  snowmelt : raster Z;
  system_time_start : raster Z
}.

(** [createTimeBand]: [image.addBands(image.metadata('system:time_start'))];
    the metadata band is a constant image. *)
Definition createTimeBand (image : Image) : TimeBanded :=
  {| tb_time_start := time_start image;
     snowmelt := band image;
     system_time_start := fun _ => Some (time_start image) |}.

(** The points [(x, y)] that
    [select(['system:time_start', 'snowmelt']).reduce(ee.Reducer.linearFit())]
    receives at a pixel: one per image whose two bands are valid there. *)
Definition fitPoints (c : list TimeBanded) (p : pixel) : list (Z * Z) :=
  EE.valid (map (fun img => match system_time_start img p, snowmelt img p with
                            | Some x, Some y => Some (x, y)
                            | _, _ => None
                            end) c).

(** [snowMelt.map(createTimeBand)] and the points of its regression. *)
Definition regressionPoints (st : Stacks) (p : pixel) : list (Z * Z) :=
  fitPoints (map createTimeBand (snowMelt st)) p.

(** ** The earlier version of the script *)

Module Legacy.

(** [img.lt(k)] on an integer raster. *)
Definition lt (r : raster Z) (k : Z) : raster Z :=
  EE.map1 (fun x => EE.b2z (x <? k)) r.

(** [maxVal] on the [Fractional_Snow_Cover] bands: values of 100 and
    above are masked, the maximum is taken and what is masked becomes
    200. *)
Definition maxVal (img : Image2) : Image :=
  let b1 := band_primary img in     (* Fractional_Snow_Cover *)
  let b1m := EE.updateMask b1 (lt b1 100) in
  let b2 := band_secondary img in   (* Fractional_Snow_Cover_1 *)
  let b2m := EE.updateMask b2 (lt b2 100) in
  let startTime := time_start2 img in
  {| time_start := startTime; band := EE.unmask 200 (EE.max b1m b2m) |}.

End Legacy.

(** ** More sample inputs *)

(** The joined image with the two sensors exchanged. *)
Definition swapBands (img : Image2) : Image2 :=
  {| time_start2 := time_start2 img;
     band_primary := band_secondary img;
     band_secondary := band_primary img |}.

(** The second day of the sample catalog, joined: Terra 3, Aqua 0 at
    pixel (0,0). *)
Definition joined_day2 : Image2 :=
  concatBands (mkFeature (observed 1 3) (observed 1 0)).

(** A catalog in which Aqua has no image in 2004. *)
Definition aqua_gap (i : Z) : list Image :=
  if i =? 2004 then [] else aqua_sample i.

(** ** The year settings as texts *)

(** [i.toString()] for an integer: its decimal text. *)
Definition toString (i : Z) : string :=
  NilZero.string_of_int (Z.to_int i).

Section Settings.

(** [parseInt] of the language; [None] is [NaN]. *)
Variable parseInt : string -> option Z.

Variables terra aqua : Z -> list Image.

(** The settings [t0] and [t1], as the script holds them. *)
Variables t0 t1 : string.

(** One pass of the loop body.  The stacks are [None] while the
    variables [snowMelt] and [snowAcc] are undefined; the first branch
    is taken when the text of the year equals the text [t0]; [merge] on
    an undefined stack fails. *)
Definition loop_body_text (st : option Stacks) (i : Z) : option Stacks :=
  match snowMeltAcc terra aqua i with
  | None => None
  | Some mm =>
    let tmpMelt := {| time_start := i; band := constant_min mm |} in
    let tmpAcc := {| time_start := i; band := constant_max mm |} in
    if String.eqb (toString i) t0 then
      Some {| snowMelt := [tmpMelt]; snowAcc := [tmpAcc] |}
    else
      match st with
      | None => None
      | Some st =>
        Some {| snowMelt := snowMelt st ++ [tmpMelt];
                snowAcc := snowAcc st ++ [tmpAcc] |}
      end
  end.

Fixpoint loop_text (st : option Stacks) (l : list Z)
  : option (option Stacks) :=
  match l with
  | [] => Some st
  | i :: l' =>
    match loop_body_text st i with
    | None => None
    | Some st' => loop_text (Some st') l'
    end
  end.

(** The stacks after [for (i = parseInt(t0); i <= parseInt(t1); ++i)];
    a comparison with [NaN] is false, so the loop makes no pass when a
    setting does not parse, and with no pass the stacks are undefined
    and the script stops at [snowMelt.toList]. *)
Definition stacks_text : option Stacks :=
  match parseInt t0, parseInt t1 with
  | Some n, Some m =>
    match loop_text None (years n m) with
    | Some (Some st) => Some st
    | _ => None
    end
  | _, _ => None
  end.

End Settings.

(** A [parseInt] for the sample settings: decimal digits with an
    optional minus sign. *)
Definition parseInt_sample (s : string) : option Z :=
  option_map Z.of_int (NilZero.int_of_string s).

(** * Properties *)

(** The sample catalog at pixel (0,0): the fused covers of the three
    days are 40, 3 and 4, so the melt day is 2, the accumulation day 3 and
    the season length 1. *)
Example sample_year :
  map (fun img => band img (0, 0))
      (yearlyCollection terra_sample aqua_sample 2003)
    = [Some 40; Some 3; Some 4] /\
  melt terra_sample aqua_sample 2003 (0, 0) = Some 2 /\
  acc terra_sample aqua_sample 2003 (0, 0) = Some 3 /\
  option_map (fun st => map (fun img => (time_start img, band img (0, 0)))
                            (snowFree st))
             (stacks terra_sample aqua_sample 2003 2004)
    = Some [(2003, Some 1); (2004, Some 1)].
Proof. repeat split; reflexivity. Qed.

(** ** Stream fuser: [maxVal] *)

Section Fuser.

Lemma maxVal_pixel (img : Image2) (p : pixel) :
  band (maxVal img) p =
  let m := Z.max (recoded (band_primary img p))
                 (recoded (band_secondary img p)) in
  if m =? 0 then None else Some (if m =? -10 then 0 else m).
Proof.
  unfold maxVal, EE.updateMask, EE.neq, EE.max, EE.map2, EE.map1, EE.unmask.
  cbn [band]. unfold recoded.
  destruct (band_primary img p) as [a|], (band_secondary img p) as [b|];
    cbn [option_map];
    match goal with
    | |- context [Z.max ?x ?y =? 0] => destruct (Z.max x y =? 0); reflexivity
    end.
Qed.

Lemma maxVal_time_start2 (img : Image2) :
  time_start (maxVal img) = time_start2 img.
Proof. reflexivity. Qed.

Ltac fuse_cases :=
  repeat match goal with
         | |- context [?x =? ?y] => is_var x; destruct (Z.eqb_spec x y)
         end;
  repeat match goal with
         | |- context [?x =? ?y] => destruct (Z.eqb_spec x y)
         end;
  solve [ reflexivity | f_equal; lia | exfalso; lia ].

(** Both sensors valid, cover values not negative: the larger value. *)
Lemma maxVal_both_valid (img : Image2) (p : pixel) (a b : Z) :
  band_primary img p = Some a -> band_secondary img p = Some b ->
  0 <= a -> 0 <= b ->
  band (maxVal img) p = Some (Z.max a b).
Proof.
  intros Ha Hb H0a H0b. rewrite maxVal_pixel, Ha, Hb. cbn [recoded].
  cbv zeta. fuse_cases.
Qed.

(** One sensor valid with a positive cover, the other masked. *)
Lemma maxVal_primary_only (img : Image2) (p : pixel) (a : Z) :
  band_primary img p = Some a -> band_secondary img p = None -> 0 < a ->
  band (maxVal img) p = Some a.
Proof.
  intros Ha Hb H0. rewrite maxVal_pixel, Ha, Hb. cbn [recoded].
  cbv zeta. fuse_cases.
Qed.

Lemma maxVal_secondary_only (img : Image2) (p : pixel) (b : Z) :
  band_primary img p = None -> band_secondary img p = Some b -> 0 < b ->
  band (maxVal img) p = Some b.
Proof.
  intros Ha Hb H0. rewrite maxVal_pixel, Ha, Hb. cbn [recoded].
  cbv zeta. fuse_cases.
Qed.

(** Neither sensor valid: masked. *)
Lemma maxVal_both_masked (img : Image2) (p : pixel) :
  band_primary img p = None -> band_secondary img p = None ->
  band (maxVal img) p = None.
Proof.
  intros Ha Hb. rewrite maxVal_pixel, Ha, Hb. reflexivity.
Qed.

(** A valid zero against a masked pixel: the recoded -10 loses the
    maximum against the unmasked 0, and the 0 is masked again. *)
Lemma maxVal_zero_against_masked (img : Image2) (p : pixel) :
  (band_primary img p = Some 0 /\ band_secondary img p = None) \/
  (band_primary img p = None /\ band_secondary img p = Some 0) ->
  band (maxVal img) p = None.
Proof.
  intros [[Ha Hb]|[Ha Hb]]; rewrite maxVal_pixel, Ha, Hb; reflexivity.
Qed.

End Fuser.

(** C1. On a pixel where sensor A reads a valid 0 and sensor B is masked,
    [maxVal] returns a masked pixel, where the fused value should be the
    valid 0 (the larger of the valid readings); where both sensors read a
    valid 0 the fused pixel is the valid 0. *)
Theorem maxVal_zero_and_masked_is_masked :
  (forall p, band_primary zero_and_masked p = Some 0) /\
  (forall p, band_secondary zero_and_masked p = None) /\
  (forall p, band (maxVal zero_and_masked) p = None) /\
  (forall p, band (maxVal {| time_start2 := 0;
                             band_primary := fun _ => Some 0;
                             band_secondary := fun _ => Some 0 |}) p = Some 0).
Proof.
  repeat split; intros p; reflexivity.
Qed.

(** ** Event encoder: [returnDoy] *)

Section Encoder.

Lemma truncate_whole (q : Q) (m : Z) :
  q == inject_Z m -> EE.truncate q = m.
Proof.
  unfold Qeq, EE.truncate. cbn [Qnum Qden inject_Z]. intros H.
  rewrite Z.mul_1_r in H. rewrite H.
  apply Z.quot_mul. discriminate.
Qed.

Lemma toInt_whole (q : Q) (m : Z) :
  q == inject_Z m -> - 2 ^ 31 <= m <= 2 ^ 31 - 1 -> EE.toInt q = m.
Proof.
  intros H Hm. unfold EE.toInt. rewrite (truncate_whole q m H). lia.
Qed.

Lemma toInt_9999 : EE.toInt (inject_Z 9999) = 9999.
Proof. reflexivity. Qed.

Lemma doy_whole (start : Z) (image : Image) (n : Z) :
  EE.difference_day (time_start image) start == inject_Z n ->
  doy start image == inject_Z (n + 1).
Proof.
  intros H. unfold doy. rewrite H, inject_Z_plus. reflexivity.
Qed.

(** The two stages of [returnDoy], with the image's day of year [d]
    after [toInt()]. *)
Lemma replacement_pixel (start : Z) (image : Image) (p : pixel) :
  replacement start image p =
  option_map (fun cover => if cover <=? 5
                           then EE.toInt (doy start image) else 9999)
             (band image p).
Proof.
  unfold replacement, EE.map1.
  destruct (band image p) as [c|]; cbn [option_map]; [|reflexivity].
  destruct (c <=? 5); [reflexivity | now rewrite toInt_9999].
Qed.

Lemma returnDoy_pixel (start : Z) (image : Image) (p : pixel) :
  returnDoy start image p =
  match replacement start image p with
  | Some v => if v =? 9999 then None else Some v
  | None => None
  end.
Proof.
  unfold returnDoy, EE.updateMask, EE.neq, EE.map1.
  destruct (replacement start image p) as [v|]; cbn [option_map];
    [|reflexivity].
  destruct (v =? 9999); reflexivity.
Qed.

Lemma returnDoy_masked (start : Z) (image : Image) (p : pixel) :
  band image p = None -> returnDoy start image p = None.
Proof.
  intros H. rewrite returnDoy_pixel, replacement_pixel, H. reflexivity.
Qed.

End Encoder.

(** C2. For an image [n] whole days after [start]: the encoder emits the
    one-based day of year [n + 1] on every valid pixel whose cover is at
    most 5 and the sentinel 9999 on the other valid pixels; then it masks
    the pixels that hold the sentinel; every pixel left unmasked has a
    cover of at most 5 and holds the day of year. *)
Theorem returnDoy_emits_doy (start : Z) (image : Image) (n : Z) (p : pixel) :
  EE.difference_day (time_start image) start == inject_Z n ->
  - 2 ^ 31 <= n + 1 <= 2 ^ 31 - 1 ->
  doy start image == inject_Z n + inject_Z 1 /\
  replacement start image p =
    option_map (fun cover => if cover <=? 5 then n + 1 else 9999)
               (band image p) /\
  returnDoy start image p =
    match replacement start image p with
    | Some v => if v =? 9999 then None else Some v
    | None => None
    end /\
  (forall v, returnDoy start image p = Some v ->
             exists cover, band image p = Some cover /\ cover <= 5 /\
                           v = n + 1).
Proof.
  intros Hn Hr.
  assert (Hd : EE.toInt (doy start image) = n + 1)
    by (apply toInt_whole; [now apply doy_whole | exact Hr]).
  assert (Hrep : replacement start image p =
                 option_map (fun cover => if cover <=? 5 then n + 1 else 9999)
                            (band image p))
    by (rewrite replacement_pixel, Hd; reflexivity).
  split; [|split; [|split]].
  - unfold doy. rewrite Hn. reflexivity.
  - exact Hrep.
  - apply returnDoy_pixel.
  - intros v. rewrite returnDoy_pixel, Hrep.
    destruct (band image p) as [c|]; cbn [option_map]; [|discriminate].
    destruct (Z.leb_spec c 5) as [Hc|Hc].
    + destruct (n + 1 =? 9999); [discriminate|].
      intros [= <-]. exists c. auto.
    + cbn. discriminate.
Qed.

Lemma returnDoy_emits_doy_witness :
  EE.difference_day (time_start day3) 0 == inject_Z 2 /\
  - 2 ^ 31 <= 2 + 1 <= 2 ^ 31 - 1 /\
  returnDoy 0 day3 (0, 0) = Some 3.
Proof.
  assert (H1 : EE.difference_day (time_start day3) 0 == inject_Z 2)
    by reflexivity.
  assert (H2 : - 2 ^ 31 <= 2 + 1 <= 2 ^ 31 - 1) by (cbn; lia).
  split; [exact H1 | split; [exact H2 |]].
  destruct (returnDoy_emits_doy 0 day3 2 (0, 0) H1 H2) as (_ & _ & H & _).
  rewrite H. reflexivity.
Defined.

(** C5, as stated, fails: the encoded tenth day has the single band
    [constant] and no timestamp, and a second pass of the encoder on it
    fails instead of returning it. *)
Lemma returnDoy_image_second_pass_fails :
  exists out,
    returnDoy_image 0 (fusedImage day10) = Some out /\
    returnDoy_image 0 out = None /\
    ~ (forall start image out',
          returnDoy_image start image = Some out' ->
          returnDoy_image start out' = Some out').
Proof.
  eexists. split; [reflexivity|]. split; [reflexivity|].
  intros H. specialize (H 0 (fusedImage day10) _ eq_refl). discriminate H.
Qed.

(** C5, amended. The encoder works on every image of the fused series
    and writes the encoded raster under the band name [constant],
    without a timestamp; it cannot be run on its own output: whatever
    image it returns has neither the band [NDSI_Snow_Cover] nor a
    [system:time_start], so a second pass fails, for any [start]. *)
Theorem returnDoy_image_no_second_pass (start : Z) (img : Image) :
  (exists out,
     returnDoy_image start (fusedImage img) = Some out /\
     map fst (bands out) = ["constant"%string] /\
     (exists r, select "constant" out = Some r /\
                forall p, r p = returnDoy start img p)) /\
  (forall image out,
     returnDoy_image start image = Some out ->
     property_time_start out = None /\
     select "NDSI_Snow_Cover" out = None /\
     forall start', returnDoy_image start' out = None).
Proof.
  split.
  - eexists. split; [reflexivity|]. split; [reflexivity|].
    eexists. split; [reflexivity|]. reflexivity.
  - intros image out H. unfold returnDoy_image in H.
    destruct (property_time_start image) as [t|]; [|discriminate].
    destruct (select "NDSI_Snow_Cover" image) as [r|]; [|discriminate].
    injection H as <-. repeat split.
Qed.

(** ** Year reducer: [reduce(ee.Reducer.minMax()).unmask(366)] *)

Section Reducer.

Lemma fold_min_spec (l : list Z) (x : Z) :
  In (fold_left Z.min l x) (x :: l) /\
  forall d, In d (x :: l) -> fold_left Z.min l x <= d.
Proof.
  revert x. induction l as [|y l IH]; intros x; cbn [fold_left].
  - split; [now left | intros d [<-|[]]; lia].
  - destruct (IH (Z.min x y)) as [Hin Hle]. split.
    + destruct Hin as [Hm|Hin].
      * rewrite <- Hm. destruct (Z.min_spec x y) as [[_ ->]|[_ ->]];
          [now left | right; now left].
      * right; now right.
    + intros d [<-|[<-|Hd]].
      * specialize (Hle (Z.min x y) (or_introl eq_refl)). lia.
      * specialize (Hle (Z.min x y) (or_introl eq_refl)). lia.
      * apply Hle. now right.
Qed.

Lemma fold_max_spec (l : list Z) (x : Z) :
  In (fold_left Z.max l x) (x :: l) /\
  forall d, In d (x :: l) -> d <= fold_left Z.max l x.
Proof.
  revert x. induction l as [|y l IH]; intros x; cbn [fold_left].
  - split; [now left | intros d [<-|[]]; lia].
  - destruct (IH (Z.max x y)) as [Hin Hle]. split.
    + destruct Hin as [Hm|Hin].
      * rewrite <- Hm. destruct (Z.max_spec x y) as [[_ ->]|[_ ->]];
          [right; now left | now left].
      * right; now right.
    + intros d [<-|[<-|Hd]].
      * specialize (Hle (Z.max x y) (or_introl eq_refl)). lia.
      * specialize (Hle (Z.max x y) (or_introl eq_refl)). lia.
      * apply Hle. now right.
Qed.

(** The two outputs of the year reducer on one pixel, by cases on the
    days that are valid there. *)
Lemma reduceYear_cases (c : list (raster Z)) (p : pixel) :
  (EE.valid (map (fun r => r p) c) = [] /\
   constant_min (reduceYear c) p = Some 366 /\
   constant_max (reduceYear c) p = Some 366) \/
  (EE.valid (map (fun r => r p) c) <> [] /\
   exists lo hi,
     constant_min (reduceYear c) p = Some lo /\
     constant_max (reduceYear c) p = Some hi /\
     In lo (EE.valid (map (fun r => r p) c)) /\
     In hi (EE.valid (map (fun r => r p) c)) /\
     forall d, In d (EE.valid (map (fun r => r p) c)) -> lo <= d <= hi).
Proof.
  unfold reduceYear, EE.reduce_minMax, EE.unmask. cbn [constant_min constant_max].
  destruct (EE.valid (map (fun r => r p) c)) as [|x l].
  - left. repeat split.
  - right. split; [discriminate|].
    destruct (fold_min_spec l x) as [Hin1 Hle1].
    destruct (fold_max_spec l x) as [Hin2 Hle2].
    exists (fold_left Z.min l x), (fold_left Z.max l x).
    cbn [EE.minimum EE.maximum]. repeat split; auto.
Qed.

End Reducer.

(** C3. On every pixel the year reducer yields the least day of year of
    the pixel's unmasked days as melt and the greatest as acc; with no
    unmasked day both are the sentinel 366. *)
Theorem reduceYear_min_max (c : list (raster Z)) (p : pixel) :
  exists lo hi,
    constant_min (reduceYear c) p = Some lo /\
    constant_max (reduceYear c) p = Some hi /\
    (EE.valid (map (fun r => r p) c) = [] -> lo = 366 /\ hi = 366) /\
    (EE.valid (map (fun r => r p) c) <> [] ->
     In lo (EE.valid (map (fun r => r p) c)) /\
     In hi (EE.valid (map (fun r => r p) c)) /\
     forall d, In d (EE.valid (map (fun r => r p) c)) -> lo <= d <= hi).
Proof.
  destruct (reduceYear_cases c p)
    as [(He & Hlo & Hhi)|(Hne & lo & hi & Hlo & Hhi & H)].
  - exists 366, 366. split; [exact Hlo | split; [exact Hhi | split]].
    + auto.
    + intros Hne. contradiction.
  - exists lo, hi. split; [exact Hlo | split; [exact Hhi | split]].
    + intros He. contradiction.
    + intros _. exact H.
Qed.

(** C4. On every pixel of every year either the pixel has an unmasked
    day and melt <= acc, or it has none and melt = acc = 366. *)
Theorem reduceYear_melt_le_acc (c : list (raster Z)) (p : pixel) :
  exists lo hi,
    constant_min (reduceYear c) p = Some lo /\
    constant_max (reduceYear c) p = Some hi /\
    ((EE.valid (map (fun r => r p) c) <> [] /\ lo <= hi) \/
     (EE.valid (map (fun r => r p) c) = [] /\ lo = 366 /\ hi = 366)).
Proof.
  destruct (reduceYear_cases c p)
    as [(He & Hlo & Hhi)|(Hne & lo & hi & Hlo & Hhi & Hin & _ & H)].
  - exists 366, 366. split; [exact Hlo | split; [exact Hhi |]].
    right. auto.
  - exists lo, hi. split; [exact Hlo | split; [exact Hhi |]].
    left. split; [exact Hne|]. apply (H lo Hin).
Qed.

(** ** Sorting and joining collections *)

Section Collections.

Context {A : Type} (key : A -> Z).

Lemma insert_by_In (x y : A) (l : list A) :
  In y (EE.insert_by key x l) <-> y = x \/ In y l.
Proof.
  induction l as [|z l IH]; cbn [EE.insert_by].
  - cbn. intuition.
  - destruct (key x <=? key z); cbn [In]; [intuition|].
    rewrite IH. intuition.
Qed.

Lemma sort_by_In (y : A) (l : list A) :
  In y (EE.sort_by key l) <-> In y l.
Proof.
  induction l as [|z l IH]; cbn [EE.sort_by fold_right In]; [tauto|].
  rewrite insert_by_In. fold (EE.sort_by key l). rewrite IH. intuition.
Qed.

Lemma insert_by_length (x : A) (l : list A) :
  length (EE.insert_by key x l) = S (length l).
Proof.
  induction l as [|z l IH]; cbn [EE.insert_by]; [reflexivity|].
  destruct (key x <=? key z); cbn [length]; [reflexivity|].
  now rewrite IH.
Qed.

Lemma sort_by_length (l : list A) :
  length (EE.sort_by key l) = length l.
Proof.
  induction l as [|z l IH]; cbn [EE.sort_by fold_right length];
    [reflexivity|].
  rewrite insert_by_length. fold (EE.sort_by key l). now rewrite IH.
Qed.

End Collections.

Section Join.

Lemma innerJoin_In (filt : Image -> Image -> bool) (a b : list Image)
    (f : Feature) :
  In f (EE.innerJoin filt a b) ->
  In (primary f) a /\ In (secondary f) b /\
  filt (primary f) (secondary f) = true.
Proof.
  unfold EE.innerJoin. rewrite in_flat_map. intros (x & Hx & Hf).
  apply in_map_iff in Hf. destruct Hf as (y & <- & Hy).
  apply filter_In in Hy. cbn [primary secondary]. tauto.
Qed.

Lemma filter_year_absent (y : Z) (l : list Z) :
  ~ In y l -> filter (fun j => y =? j) l = [].
Proof.
  induction l as [|z l IH]; cbn [filter In]; [reflexivity|].
  intros H. destruct (Z.eqb_spec y z) as [->|_]; [tauto|].
  apply IH. tauto.
Qed.

Lemma filter_by_year (g : Z -> Image) (x : Image) (l : list Z) :
  (forall i, time_start (g i) = i) ->
  filter (filterTimeEq x) (map g l) =
  map g (filter (fun j => time_start x =? j) l).
Proof.
  intros Hg. induction l as [|z l IH]; cbn [map filter]; [reflexivity|].
  unfold filterTimeEq at 1. rewrite Hg.
  destruct (time_start x =? z); cbn [map]; now rewrite IH.
Qed.

(** Two stacks tagged with the same distinct years join year by year. *)
Lemma innerJoin_years (f g : Z -> Image) (ys pre : list Z) :
  (forall i, time_start (f i) = i) ->
  (forall i, time_start (g i) = i) ->
  NoDup ys -> (forall i, In i ys -> ~ In i pre) ->
  EE.innerJoin filterTimeEq (map f ys) (map g (pre ++ ys)) =
  map (fun i => mkFeature (f i) (g i)) ys.
Proof.
  intros Hf Hg. revert pre.
  induction ys as [|y ys IH]; intros pre Hnd Hpre; [reflexivity|].
  inversion Hnd as [|? ? Hy Hnd']; subst.
  unfold EE.innerJoin. cbn [map flat_map]. fold (EE.innerJoin filterTimeEq).
  rewrite (filter_by_year g (f y) (pre ++ y :: ys) Hg), Hf.
  rewrite filter_app. cbn [filter]. rewrite Z.eqb_refl.
  rewrite (filter_year_absent y pre) by (apply Hpre; now left).
  rewrite (filter_year_absent y ys Hy). cbn [app map].
  f_equal.
  change (pre ++ y :: ys) with (pre ++ [y] ++ ys). rewrite app_assoc.
  apply IH; [exact Hnd'|].
  intros i Hi Hin. apply in_app_iff in Hin. destruct Hin as [Hin|[->|[]]].
  - apply (Hpre i); [now right | exact Hin].
  - contradiction.
Qed.

End Join.

(** ** The year loop and the stacks *)

Section Pipeline.

Variables terra aqua : Z -> list Image.
Variables t0 t1 : Z.

Hypothesis some_year : t0 <= t1.
Hypothesis some_day :
  forall i, t0 <= i <= t1 -> yearlyCollection terra aqua i <> [].

Lemma snowMeltAcc_some (i : Z) :
  t0 <= i <= t1 ->
  exists s,
    start terra aqua i = Some s /\
    snowMeltAcc terra aqua i =
    Some (reduceYear (map (returnDoy s) (yearlyCollection terra aqua i))).
Proof.
  intros Hi. specialize (some_day i Hi).
  unfold snowMeltAcc, doyCollection, start.
  destruct (yearlyCollection terra aqua i) as [|img c]; [contradiction|].
  exists (time_start img). split; reflexivity.
Qed.

Lemma melt_acc_valid (i : Z) (p : pixel) :
  t0 <= i <= t1 ->
  exists lo hi,
    melt terra aqua i p = Some lo /\ acc terra aqua i p = Some hi /\
    lo <= hi.
Proof.
  intros Hi. destruct (snowMeltAcc_some i Hi) as (s & _ & Hs).
  unfold melt, acc. rewrite Hs.
  destruct (reduceYear_cases
              (map (returnDoy s) (yearlyCollection terra aqua i)) p)
    as [(_ & Hlo & Hhi)|(_ & lo & hi & Hlo & Hhi & Hin & _ & H)].
  - exists 366, 366. repeat split; auto. lia.
  - exists lo, hi. repeat split; auto. apply (H lo Hin).
Qed.

Lemma years_range (i : Z) : In i (years t0 t1) <-> t0 <= i <= t1.
Proof.
  clear some_year some_day. unfold years. rewrite in_map_iff. split.
  - intros (k & <- & Hk). apply in_seq in Hk. lia.
  - intros Hi. exists (Z.to_nat (i - t0)). split; [lia|].
    apply in_seq. lia.
Qed.

Lemma years_NoDup : NoDup (years t0 t1).
Proof.
  clear some_year some_day.
  unfold years. apply Injective_map_NoDup; [|apply seq_NoDup].
  intros a b H. lia.
Qed.

Lemma years_first :
  exists l, years t0 t1 = t0 :: l /\ forall i, In i l -> t0 < i <= t1.
Proof.
  unfold years.
  destruct (Z.to_nat (t1 - t0 + 1)) as [|n] eqn:Hn; [lia|].
  cbn [seq map]. exists (map (fun k => t0 + Z.of_nat k) (seq 1 n)).
  split; [f_equal; cbn; lia|].
  intros i Hi. apply in_map_iff in Hi. destruct Hi as (k & <- & Hk).
  apply in_seq in Hk. lia.
Qed.

Lemma loop_body_spec (st : Stacks) (i : Z) :
  t0 <= i <= t1 ->
  loop_body terra aqua t0 st i =
  Some (if i =? t0
        then {| snowMelt := [meltImage terra aqua i];
                snowAcc := [accImage terra aqua i] |}
        else {| snowMelt := snowMelt st ++ [meltImage terra aqua i];
                snowAcc := snowAcc st ++ [accImage terra aqua i] |}).
Proof.
  intros Hi. destruct (snowMeltAcc_some i Hi) as (s & _ & Hs).
  unfold loop_body, meltImage, accImage, melt, acc. rewrite Hs.
  destruct (i =? t0); reflexivity.
Qed.

Lemma loop_later_years (l : list Z) (st : Stacks) :
  (forall i, In i l -> t0 < i <= t1) ->
  loop terra aqua t0 st l =
  Some {| snowMelt := snowMelt st ++ map (meltImage terra aqua) l;
          snowAcc := snowAcc st ++ map (accImage terra aqua) l |}.
Proof.
  revert st. induction l as [|i l IH]; intros st Hl; cbn [loop map].
  - rewrite !app_nil_r. now destruct st.
  - assert (Hi : t0 < i <= t1) by (apply Hl; now left).
    rewrite loop_body_spec by lia.
    destruct (Z.eqb_spec i t0) as [->|_]; [lia|].
    rewrite IH by (intros j Hj; apply Hl; now right).
    cbn [snowMelt snowAcc]. now rewrite <- !app_assoc.
Qed.

(** The loop ends and leaves one layer per year in each stack, in year
    order. *)
Lemma stacks_spec :
  stacks terra aqua t0 t1 =
  Some {| snowMelt := map (meltImage terra aqua) (years t0 t1);
          snowAcc := map (accImage terra aqua) (years t0 t1) |}.
Proof.
  unfold stacks. destruct (Z.ltb_spec t1 t0) as [H|_]; [lia|].
  destruct years_first as (l & -> & Hl). cbn [loop map].
  rewrite loop_body_spec by lia. rewrite Z.eqb_refl.
  rewrite loop_later_years by exact Hl. reflexivity.
Qed.

Lemma snowFree_spec (st : Stacks) :
  stacks terra aqua t0 t1 = Some st ->
  snowFree st =
  map (fun i => difference (concatBands
                   (mkFeature (meltImage terra aqua i) (accImage terra aqua i))))
      (years t0 t1).
Proof.
  rewrite stacks_spec. intros [= <-]. unfold snowFree. cbn [snowMelt snowAcc].
  pose proof (innerJoin_years (meltImage terra aqua) (accImage terra aqua)
                              (years t0 t1) []) as H.
  cbn [app] in H. rewrite H.
  - now rewrite !map_map.
  - reflexivity.
  - reflexivity.
  - apply years_NoDup.
  - intros i _ [].
Qed.

End Pipeline.

(** ** Season length *)

Section Season.

Variables terra aqua : Z -> list Image.
Variables t0 t1 : Z.

Hypothesis some_year : t0 <= t1.
Hypothesis some_day :
  forall i, t0 <= i <= t1 -> yearlyCollection terra aqua i <> [].

Lemma snowFree_years (st : Stacks) :
  stacks terra aqua t0 t1 = Some st ->
  map time_start (snowFree st) = years t0 t1.
Proof.
  intros Hst. rewrite (snowFree_spec terra aqua t0 t1 some_year some_day st Hst).
  rewrite map_map. cbn. apply map_id.
Qed.

Lemma snowFree_pixel (st : Stacks) (img : Image) (p : pixel) :
  stacks terra aqua t0 t1 = Some st ->
  In img (snowFree st) ->
  exists lo hi,
    t0 <= time_start img <= t1 /\
    melt terra aqua (time_start img) p = Some lo /\
    acc terra aqua (time_start img) p = Some hi /\
    lo <= hi /\
    band img p = Some (hi - lo).
Proof.
  intros Hst Hin.
  rewrite (snowFree_spec terra aqua t0 t1 some_year some_day st Hst) in Hin.
  apply in_map_iff in Hin. destruct Hin as (i & <- & Hi).
  apply years_range in Hi.
  destruct (melt_acc_valid terra aqua t0 t1 some_day i p Hi)
    as (lo & hi & Hlo & Hhi & Hle).
  exists lo, hi. cbn [difference concatBands time_start time_start2 band
                      band_primary band_secondary primary secondary
                      meltImage accImage].
  unfold EE.subtract, EE.map2. rewrite Hlo, Hhi.
  repeat split; solve [ reflexivity | assumption | lia ].
Qed.

End Season.

(** C6. With at least one joined day in every year of [t0..t1], the loop
    ends, the yearly join pairs the two stacks year by year, and on every
    pixel the season length of a year is that year's acc minus that year's
    melt, both recomputed from the year's daily series. *)
Theorem snowFree_is_acc_minus_melt
    (terra aqua : Z -> list Image) (t0 t1 : Z) (p : pixel) :
  t0 <= t1 ->
  (forall i, t0 <= i <= t1 -> yearlyCollection terra aqua i <> []) ->
  exists st,
    stacks terra aqua t0 t1 = Some st /\
    map time_start (snowFree st) = years t0 t1 /\
    forall img, In img (snowFree st) ->
      exists lo hi,
        melt terra aqua (time_start img) p = Some lo /\
        acc terra aqua (time_start img) p = Some hi /\
        band img p = Some (hi - lo).
Proof.
  intros Hy Hd.
  eexists. split; [apply (stacks_spec terra aqua t0 t1 Hy Hd)|].
  split.
  - apply (snowFree_years terra aqua t0 t1 Hy Hd).
    apply (stacks_spec terra aqua t0 t1 Hy Hd).
  - intros img Hin.
    destruct (snowFree_pixel terra aqua t0 t1 Hy Hd _ img p
                (stacks_spec terra aqua t0 t1 Hy Hd) Hin)
      as (lo & hi & _ & Hlo & Hhi & _ & Hb).
    exists lo, hi. auto.
Qed.

Lemma snowFree_is_acc_minus_melt_witness :
  2003 <= 2004 /\
  (forall i, 2003 <= i <= 2004 ->
             yearlyCollection terra_sample aqua_sample i <> []) /\
  exists st,
    stacks terra_sample aqua_sample 2003 2004 = Some st /\
    map time_start (snowFree st) = years 2003 2004 /\
    forall img, In img (snowFree st) ->
      exists lo hi,
        melt terra_sample aqua_sample (time_start img) (0, 0) = Some lo /\
        acc terra_sample aqua_sample (time_start img) (0, 0) = Some hi /\
        band img (0, 0) = Some (hi - lo).
Proof.
  assert (H1 : 2003 <= 2004) by lia.
  assert (H2 : forall i, 2003 <= i <= 2004 ->
                         yearlyCollection terra_sample aqua_sample i <> [])
    by (intros i _; vm_compute; discriminate).
  split; [exact H1 | split; [exact H2 |]].
  apply (snowFree_is_acc_minus_melt terra_sample aqua_sample 2003 2004 (0, 0)
           H1 H2).
Defined.

(** C10. With at least one joined day in every year of [t0..t1], every
    season length the script produces is valid and not negative. *)
Theorem snowFree_not_negative
    (terra aqua : Z -> list Image) (t0 t1 : Z) :
  t0 <= t1 ->
  (forall i, t0 <= i <= t1 -> yearlyCollection terra aqua i <> []) ->
  exists st,
    stacks terra aqua t0 t1 = Some st /\
    forall img p, In img (snowFree st) ->
      exists v, band img p = Some v /\ 0 <= v.
Proof.
  intros Hy Hd.
  eexists. split; [apply (stacks_spec terra aqua t0 t1 Hy Hd)|].
  intros img p Hin.
  destruct (snowFree_pixel terra aqua t0 t1 Hy Hd _ img p
              (stacks_spec terra aqua t0 t1 Hy Hd) Hin)
    as (lo & hi & _ & _ & _ & Hle & Hb).
  exists (hi - lo). split; [exact Hb | lia].
Qed.

Lemma snowFree_not_negative_witness :
  2003 <= 2004 /\
  (forall i, 2003 <= i <= 2004 ->
             yearlyCollection terra_sample aqua_sample i <> []) /\
  exists st,
    stacks terra_sample aqua_sample 2003 2004 = Some st /\
    forall img p, In img (snowFree st) ->
      exists v, band img p = Some v /\ 0 <= v.
Proof.
  assert (H1 : 2003 <= 2004) by lia.
  assert (H2 : forall i, 2003 <= i <= 2004 ->
                         yearlyCollection terra_sample aqua_sample i <> [])
    by (intros i _; vm_compute; discriminate).
  split; [exact H1 | split; [exact H2 |]].
  apply (snowFree_not_negative terra_sample aqua_sample 2003 2004 H1 H2).
Defined.

(** ** A pixel that is masked all year *)

Section Masked.

Lemma valid_all_masked {A} (l : list (option A)) :
  (forall o, In o l -> o = None) -> EE.valid l = [].
Proof.
  induction l as [|o l IH]; intros H; [reflexivity|].
  rewrite (H o (or_introl eq_refl)). cbn [EE.valid].
  apply IH. intros o' Ho'. apply H. now right.
Qed.

Lemma valid_all_valid {A} (l : list (option A)) (v : A) :
  (forall o, In o l -> o = Some v) -> EE.valid l = map (fun _ => v) l.
Proof.
  induction l as [|o l IH]; intros H; [reflexivity|].
  rewrite (H o (or_introl eq_refl)). cbn [EE.valid map]. f_equal.
  apply IH. intros o' Ho'. apply H. now right.
Qed.

Lemma Qltb_spec (x : Q) (k : Z) :
  EE.Qltb x k = true <-> (x < inject_Z k)%Q.
Proof.
  unfold EE.Qltb. rewrite negb_true_iff. split.
  - intros H. apply Qnot_le_lt. intros Hle.
    apply Qle_bool_iff in Hle. congruence.
  - intros H. destruct (Qle_bool (inject_Z k) x) eqn:E; [|reflexivity].
    apply Qle_bool_iff in E. exfalso. apply (Qlt_not_le _ _ H E).
Qed.

Lemma median_zeros (l : list Z) :
  l <> [] -> (forall x, In x l -> x = 0) ->
  exists m, EE.median l = Some m /\ m == 0.
Proof.
  intros Hne Hz. unfold EE.median. cbv zeta.
  assert (Hnth : forall k, nth k (EE.sort_by (fun x => x) l) 0 = 0).
  { intros k.
    destruct (nth_in_or_default k (EE.sort_by (fun x => x) l) 0) as [H|H];
      [|exact H].
    apply Hz. apply (sort_by_In (fun x => x)). exact H. }
  rewrite !Hnth, sort_by_length.
  destruct l as [|x l]; [contradiction|]. cbn [length].
  destruct (Nat.odd (S (length l))); eexists; split; reflexivity.
Qed.

Variables terra aqua : Z -> list Image.
Variables t0 t1 : Z.
Variable p : pixel.

Hypothesis some_year : t0 <= t1.
Hypothesis some_day :
  forall i, t0 <= i <= t1 -> yearlyCollection terra aqua i <> [].

Lemma yearly_masked (i : Z) (img : Image) :
  masked_all_year terra aqua p i ->
  In img (yearlyCollection terra aqua i) -> band img p = None.
Proof.
  clear some_year some_day.
  intros Hm Hin. unfold yearlyCollection, joinedCollection in Hin.
  rewrite map_map in Hin. apply in_map_iff in Hin.
  destruct Hin as (f & <- & Hf).
  apply innerJoin_In in Hf. destruct Hf as (Ha & Hb & _).
  apply (proj1 (sort_by_In time_start _ _)) in Ha.
  apply (proj1 (sort_by_In time_start _ _)) in Hb.
  apply maxVal_both_masked; cbn [concatBands band_primary band_secondary];
    apply Hm; [now left | now right].
Qed.

Lemma melt_acc_masked (i : Z) :
  t0 <= i <= t1 -> masked_all_year terra aqua p i ->
  melt terra aqua i p = Some 366 /\ acc terra aqua i p = Some 366.
Proof.
  clear some_year.
  intros Hi Hm. destruct (snowMeltAcc_some terra aqua t0 t1 some_day i Hi)
    as (s & _ & Hs).
  unfold melt, acc. rewrite Hs.
  destruct (reduceYear_cases
              (map (returnDoy s) (yearlyCollection terra aqua i)) p)
    as [(_ & Hlo & Hhi)|(Hne & _)]; [auto|].
  exfalso. apply Hne. apply valid_all_masked.
  intros o Ho. rewrite map_map in Ho. apply in_map_iff in Ho.
  destruct Ho as (img & <- & Himg).
  apply returnDoy_masked. apply (yearly_masked i img Hm Himg).
Qed.

Lemma snowFree_masked (st : Stacks) (img : Image) :
  stacks terra aqua t0 t1 = Some st ->
  In img (snowFree st) -> masked_all_year terra aqua p (time_start img) ->
  band img p = Some 0.
Proof.
  intros Hst Hin Hm.
  destruct (snowFree_pixel terra aqua t0 t1 some_year some_day st img p
              Hst Hin) as (lo & hi & Hi & Hlo & Hhi & _ & Hb).
  destruct (melt_acc_masked (time_start img) Hi Hm) as [Hlo' Hhi'].
  rewrite Hb. f_equal. rewrite Hlo in Hlo'. rewrite Hhi in Hhi'.
  injection Hlo' as ->. injection Hhi' as ->. reflexivity.
Qed.

Lemma snowFreeMedian_masked (st : Stacks) :
  stacks terra aqua t0 t1 = Some st ->
  (forall i, t0 <= i <= t1 -> masked_all_year terra aqua p i) ->
  exists m, snowFreeMedian st p = Some m /\ m == 0.
Proof.
  intros Hst Hm. unfold snowFreeMedian.
  assert (Hv : forall o, In o (map (fun img => band img p) (snowFree st)) ->
                         o = Some 0).
  { intros o Ho. apply in_map_iff in Ho. destruct Ho as (img & <- & Hin).
    apply (snowFree_masked st img Hst Hin). apply Hm.
    destruct (snowFree_pixel terra aqua t0 t1 some_year some_day st img p
                Hst Hin) as (_ & _ & Hi & _). exact Hi. }
  rewrite (valid_all_valid _ 0 Hv). apply median_zeros.
  - rewrite map_map.
    rewrite (snowFree_spec terra aqua t0 t1 some_year some_day st Hst).
    destruct (years_first t0 t1 some_year) as (l & -> & _). discriminate.
  - intros x Hx. apply in_map_iff in Hx. destruct Hx as (? & <- & _).
    reflexivity.
Qed.

End Masked.

(** C7. With at least one joined day in every year of [t0..t1]: for a
    pixel that is masked on every image of both sensors in a year, the
    fused series of that year is masked there, melt = acc = 366 and the
    season length of that year is 0; when this holds in every processed
    year the median season length is 0, which is below 306, and
    [snowFreeMask] keeps the pixel (value 1). *)
Theorem masked_all_year_is_kept
    (terra aqua : Z -> list Image) (t0 t1 : Z) (p : pixel) :
  t0 <= t1 ->
  (forall i, t0 <= i <= t1 -> yearlyCollection terra aqua i <> []) ->
  exists st,
    stacks terra aqua t0 t1 = Some st /\
    (forall i, t0 <= i <= t1 -> masked_all_year terra aqua p i ->
       (forall img, In img (yearlyCollection terra aqua i) ->
                    band img p = None) /\
       melt terra aqua i p = Some 366 /\
       acc terra aqua i p = Some 366 /\
       (forall img, In img (snowFree st) -> time_start img = i ->
                    band img p = Some 0)) /\
    ((forall i, t0 <= i <= t1 -> masked_all_year terra aqua p i) ->
       (exists m, snowFreeMedian st p = Some m /\ m == 0 /\
                  (m < inject_Z 306)%Q) /\
       snowFreeMask st p = Some 1).
Proof.
  intros Hy Hd.
  pose proof (stacks_spec terra aqua t0 t1 Hy Hd) as Hst.
  eexists. split; [exact Hst|]. split.
  - intros i Hi Hm. split; [|split; [|split]].
    + intros img Hin. apply (yearly_masked terra aqua p i img Hm Hin).
    + apply (melt_acc_masked terra aqua t0 t1 p Hd i Hi Hm).
    + apply (melt_acc_masked terra aqua t0 t1 p Hd i Hi Hm).
    + intros img Hin <-.
      apply (snowFree_masked terra aqua t0 t1 p Hy Hd _ img Hst Hin Hm).
  - intros Hm.
    destruct (snowFreeMedian_masked terra aqua t0 t1 p Hy Hd _ Hst Hm)
      as (m & Hmed & Hm0).
    assert (Hlt : (m < inject_Z 306)%Q) by (rewrite Hm0; reflexivity).
    split; [exists m; auto|].
    unfold snowFreeMask, EE.lt, EE.map1. rewrite Hmed. cbn [option_map].
    apply Qltb_spec in Hlt. rewrite Hlt. reflexivity.
Qed.

Lemma masked_all_year_is_kept_witness :
  2003 <= 2004 /\
  (forall i, 2003 <= i <= 2004 ->
             yearlyCollection terra_sample aqua_sample i <> []) /\
  (forall i, masked_all_year terra_sample aqua_sample (1, 1) i) /\
  exists st,
    stacks terra_sample aqua_sample 2003 2004 = Some st /\
    melt terra_sample aqua_sample 2003 (1, 1) = Some 366 /\
    acc terra_sample aqua_sample 2003 (1, 1) = Some 366 /\
    snowFreeMask st (1, 1) = Some 1.
Proof.
  assert (H1 : 2003 <= 2004) by lia.
  assert (H2 : forall i, 2003 <= i <= 2004 ->
                         yearlyCollection terra_sample aqua_sample i <> [])
    by (intros i _; vm_compute; discriminate).
  assert (H3 : forall i, masked_all_year terra_sample aqua_sample (1, 1) i).
  { intros i img [H|H]; cbn in H;
      destruct H as [<-|[<-|[<-|[]]]]; reflexivity. }
  split; [exact H1 | split; [exact H2 | split; [exact H3 |]]].
  destruct (masked_all_year_is_kept terra_sample aqua_sample 2003 2004 (1, 1)
              H1 H2) as (st & Hst & Hyear & Hall).
  exists st. split; [exact Hst|].
  destruct (Hyear 2003 (conj (Z.le_refl _) H1) (H3 2003))
    as (_ & Hlo & Hhi & _).
  destruct (Hall (fun i _ => H3 i)) as (_ & Hmask).
  auto.
Defined.

(** C8. The final mask is the pixel-wise AND of [snowFreeMask], which is
    the comparison [snowFreeMedian < 306], and of the land test
    [datamask = 1].  The mapped trend layer [linearFit.mask(mask)] is
    valid exactly where the mask is 1, where it shows the trend (0 where
    the trend itself was masked), and every pixel outside the mask is
    discarded.  [filteredFit] holds the trend where the mask is 1 and 0
    where the mask is 0, on every valid pixel of the trend. *)
Theorem mask_is_and
    (st : Stacks) (data : raster Z) (linearFit : Fit) (p : pixel) :
  snowFreeMask st p =
    option_map (fun m => EE.b2z (EE.Qltb m 306)) (snowFreeMedian st p) /\
  (forall m, snowFreeMedian st p = Some m ->
             (snowFreeMask st p = Some 1 <-> (m < inject_Z 306)%Q)) /\
  mask data st p =
    match data p, snowFreeMask st p with
    | Some land, Some s => Some (EE.b2z ((land =? 1) && (s =? 1)))
    | _, _ => None
    end /\
  (mask data st p = Some 1 <->
   data p = Some 1 /\ snowFreeMask st p = Some 1) /\
  (mask data st p = Some 1 ->
   scale (fit_layer data linearFit st) p =
     Some (match scale linearFit p with Some x => x | None => inject_Z 0 end) /\
   offset (fit_layer data linearFit st) p =
     Some (match offset linearFit p with Some x => x | None => inject_Z 0 end)) /\
  (mask data st p <> Some 1 ->
   scale (fit_layer data linearFit st) p = None /\
   offset (fit_layer data linearFit st) p = None) /\
  (forall x, scale linearFit p = Some x ->
     (mask data st p = Some 1 ->
      exists y, scale (filteredFit data linearFit st) p = Some y /\ y == x) /\
     (mask data st p = Some 0 ->
      exists y, scale (filteredFit data linearFit st) p = Some y /\ y == 0)) /\
  (forall x, offset linearFit p = Some x ->
     (mask data st p = Some 1 ->
      exists y, offset (filteredFit data linearFit st) p = Some y /\ y == x) /\
     (mask data st p = Some 0 ->
      exists y, offset (filteredFit data linearFit st) p = Some y /\ y == 0)) /\
  (scale (filteredFit data linearFit st) p = None <->
   scale linearFit p = None \/ mask data st p = None) /\
  (offset (filteredFit data linearFit st) p = None <->
   offset linearFit p = None \/ mask data st p = None).
Proof.
  assert (Hsf : snowFreeMask st p =
                option_map (fun m => EE.b2z (EE.Qltb m 306))
                           (snowFreeMedian st p)) by reflexivity.
  assert (Hmask : mask data st p =
                  match data p, snowFreeMask st p with
                  | Some land, Some s =>
                    Some (EE.b2z ((land =? 1) && (s =? 1)))
                  | _, _ => None
                  end).
  { unfold mask, waterMask, EE.multiply, EE.map2, EE.eq, EE.map1.
    rewrite Hsf.
    destruct (data p) as [land|]; cbn [option_map]; [|reflexivity].
    destruct (snowFreeMedian st p) as [m|]; cbn [option_map]; [|reflexivity].
    destruct (land =? 1), (EE.Qltb m 306); reflexivity. }
  assert (Hone : mask data st p = Some 1 <->
                 data p = Some 1 /\ snowFreeMask st p = Some 1).
  { rewrite Hmask, Hsf.
    destruct (data p) as [land|]; [|split; [discriminate | intros [H _]; discriminate]].
    destruct (snowFreeMedian st p) as [m|]; cbn [option_map];
      [|split; [discriminate | intros [_ H]; discriminate]].
    destruct (Z.eqb_spec land 1) as [Hl|Hl]; destruct (EE.Qltb m 306); cbn;
      (split; [intros H; try discriminate H; subst; auto
              | intros [H H']; try discriminate H'; congruence]). }
  assert (Hvals : mask data st p = Some 1 \/ mask data st p = Some 0 \/
                  mask data st p = None).
  { rewrite Hmask. destruct (data p), (snowFreeMask st p); auto.
    destruct (_ && _); auto. }
  split; [exact Hsf|]. split.
  { intros m Hm. rewrite Hsf, Hm. cbn [option_map].
    rewrite <- Qltb_spec. destruct (EE.Qltb m 306); cbn;
      split; congruence. }
  split; [exact Hmask|]. split; [exact Hone|].
  unfold fit_layer, filteredFit, multiply_mask, EE.mask, EE.map2.
  cbn [scale offset].
  split; [|split; [|split; [|split; [|split]]]].
  - intros ->. cbn. split.
    + destruct (scale linearFit p); reflexivity.
    + destruct (offset linearFit p); reflexivity.
  - intros Hn. destruct Hvals as [H|[H|H]]; [contradiction| |];
      rewrite H; cbn; auto.
  - intros x ->. split; intros ->; eexists; (split; [reflexivity|]).
    + apply Qmult_1_r.
    + apply Qmult_0_r.
  - intros x ->. split; intros ->; eexists; (split; [reflexivity|]).
    + apply Qmult_1_r.
    + apply Qmult_0_r.
  - destruct (scale linearFit p); [|split; auto].
    destruct (mask data st p); split; auto; try discriminate.
    intros [H|H]; discriminate.
  - destruct (offset linearFit p); [|split; auto].
    destruct (mask data st p); split; auto; try discriminate.
    intros [H|H]; discriminate.
Qed.

(** C9. [maxVal] copies the timestamp of the joined image, which is the
    timestamp of the primary (sensor A) image of the day pair; the fused
    collection of a year carries the timestamps of the primary images,
    in order, and these are images of sensor A's collection. *)
Theorem maxVal_keeps_time_start
    (terra aqua : Z -> list Image) (i : Z) :
  (forall img, time_start (maxVal img) = time_start2 img) /\
  (forall f, time_start (maxVal (concatBands f)) = time_start (primary f)) /\
  map time_start (yearlyCollection terra aqua i) =
    map (fun f => time_start (primary f)) (innerJoinedCollection terra aqua i) /\
  (forall f, In f (innerJoinedCollection terra aqua i) ->
             In (primary f) (terra i) /\
             time_start (secondary f) = time_start (primary f)).
Proof.
  split; [reflexivity|]. split; [reflexivity|]. split.
  - unfold yearlyCollection, joinedCollection. now rewrite !map_map.
  - intros f Hf. apply innerJoin_In in Hf. destruct Hf as (Ha & _ & Ht).
    split.
    + apply (proj1 (sort_by_In time_start _ _)) in Ha. exact Ha.
    + unfold filterTimeEq in Ht. apply Z.eqb_eq in Ht. now symmetry.
Qed.

(** * Further properties of the script *)

(** ** The stream fuser on every combination of readings *)

Lemma maxVal_cases (img : Image2) (p : pixel) :
  (forall a, band_primary img p = Some a -> 0 <= a) ->
  (forall b, band_secondary img p = Some b -> 0 <= b) ->
  band (maxVal img) p =
  match band_primary img p, band_secondary img p with
  | Some a, Some b => Some (Z.max a b)
  | Some a, None => if a =? 0 then None else Some a
  | None, Some b => if b =? 0 then None else Some b
  | None, None => None
  end.
Proof.
  intros Ha Hb.
  destruct (band_primary img p) as [a|] eqn:Ea,
           (band_secondary img p) as [b|] eqn:Eb.
  - apply maxVal_both_valid; auto.
  - destruct (Z.eqb_spec a 0) as [->|Hn].
    + apply maxVal_zero_against_masked. auto.
    + apply maxVal_primary_only; auto. specialize (Ha a eq_refl). lia.
  - destruct (Z.eqb_spec b 0) as [->|Hn].
    + apply maxVal_zero_against_masked. auto.
    + apply maxVal_secondary_only; auto. specialize (Hb b eq_refl). lia.
  - apply maxVal_both_masked; auto.
Qed.

(** The fused pixel for covers that are not negative: the larger reading
    when both sensors are valid, the only valid reading when it is not
    0, and masked when no sensor is valid or when the only valid reading
    is 0. *)
Theorem maxVal_table (img : Image2) (p : pixel) :
  (forall a, band_primary img p = Some a -> 0 <= a) ->
  (forall b, band_secondary img p = Some b -> 0 <= b) ->
  band (maxVal img) p =
  match band_primary img p, band_secondary img p with
  | Some a, Some b => Some (Z.max a b)
  | Some a, None => if a =? 0 then None else Some a
  | None, Some b => if b =? 0 then None else Some b
  | None, None => None
  end.
Proof. exact (maxVal_cases img p). Qed.

Lemma maxVal_table_witness :
  (forall a, band_primary joined_day2 (0, 0) = Some a -> 0 <= a) /\
  (forall b, band_secondary joined_day2 (0, 0) = Some b -> 0 <= b) /\
  band (maxVal joined_day2) (0, 0) = Some 3.
Proof.
  assert (H1 : forall a, band_primary joined_day2 (0, 0) = Some a -> 0 <= a)
    by (intros a [= <-]; lia).
  assert (H2 : forall b, band_secondary joined_day2 (0, 0) = Some b -> 0 <= b)
    by (intros b [= <-]; lia).
  split; [exact H1 | split; [exact H2 |]].
  rewrite (maxVal_table joined_day2 (0, 0) H1 H2). reflexivity.
Defined.

(** The fused values do not depend on which sensor is the primary one;
    only the timestamp is taken from the primary image. *)
Theorem maxVal_symmetric (img : Image2) (p : pixel) :
  band (maxVal (swapBands img)) p = band (maxVal img) p.
Proof.
  rewrite !maxVal_pixel. cbn [swapBands band_primary band_secondary].
  now rewrite Z.max_comm.
Qed.

(** ** The earlier fuser *)

Lemma legacy_maxVal_cases (img : Image2) (p : pixel) :
  band (Legacy.maxVal img) p =
  match band_primary img p, band_secondary img p with
  | Some a, Some b =>
    if (a <? 100) && (b <? 100) then Some (Z.max a b) else Some 200
  | _, _ => Some 200
  end.
Proof.
  unfold Legacy.maxVal, Legacy.lt, EE.unmask, EE.max, EE.map2,
    EE.updateMask, EE.map1.
  cbn [band].
  destruct (band_primary img p) as [a|], (band_secondary img p) as [b|];
    cbn [option_map]; try reflexivity.
  - destruct (a <? 100), (b <? 100); reflexivity.
  - destruct (a <? 100); reflexivity.
Qed.

(** The earlier [maxVal] never returns a masked pixel: it holds the
    larger reading when both sensors are valid and below 100, and 200 in
    every other case, also when one sensor has a valid reading below
    100. *)
Theorem legacy_maxVal_table (img : Image2) (p : pixel) :
  band (Legacy.maxVal img) p =
  match band_primary img p, band_secondary img p with
  | Some a, Some b =>
    if (a <? 100) && (b <? 100) then Some (Z.max a b) else Some 200
  | _, _ => Some 200
  end.
Proof. exact (legacy_maxVal_cases img p). Qed.

(** ** The encoder on any timestamp *)

Section EncoderDays.

Lemma truncate_doy (start : Z) (image : Image) :
  start <= time_start image ->
  EE.truncate (doy start image) =
  (time_start image - start) / EE.msPerDay + 1.
Proof.
  intros Ht. unfold doy, EE.difference_day, EE.truncate, EE.msPerDay.
  set (d := time_start image - start).
  assert (Hd : 0 <= d) by (unfold d; lia).
  cbn [Qplus Qdiv Qmult Qinv inject_Z Qnum Qden].
  change (Qnum (Qinv (86400000 # 1))) with 1.
  change (Qden (Qinv (86400000 # 1))) with 86400000%positive.
  rewrite !Pos.mul_1_r, !Z.mul_1_r, Pos.mul_1_l, Z.mul_1_l.
  rewrite Z.quot_div_nonneg by lia.
  change (Z.pos 86400000) with (1 * 86400000) at 1.
  rewrite Z.div_add by lia. reflexivity.
Qed.

Lemma toInt_doy_positive (start : Z) (image : Image) :
  start <= time_start image -> 1 <= EE.toInt (doy start image).
Proof.
  intros Ht. unfold EE.toInt. rewrite (truncate_doy start image Ht).
  assert (0 <= (time_start image - start) / EE.msPerDay)
    by (apply Z.div_pos; unfold EE.msPerDay; lia).
  lia.
Qed.

End EncoderDays.


Lemma returnDoy_some_iff (start : Z) (image : Image) (p : pixel) (d : Z) :
  returnDoy start image p = Some d <->
  d = EE.toInt (doy start image) /\ d <> 9999 /\
  exists cover, band image p = Some cover /\ cover <= 5.
Proof.
  rewrite returnDoy_pixel, replacement_pixel.
  destruct (band image p) as [c|]; cbn [option_map].
  - destruct (Z.leb_spec c 5) as [Hc|Hc].
    + destruct (Z.eqb_spec (EE.toInt (doy start image)) 9999) as [He|He].
      * split; [discriminate|]. intros (-> & Hn & _). contradiction.
      * split.
        -- intros [= <-]. repeat split; auto. exists c. auto.
        -- intros (-> & _). reflexivity.
    + cbn. split; [discriminate|].
      intros (_ & _ & c' & [= <-] & Hle). lia.
  - split; [discriminate|]. intros (_ & _ & c' & Hc' & _). discriminate.
Qed.

(** A pixel of the encoded image is valid exactly when the input pixel
    is valid with a cover of at most 5 and the image's day of year is not
    the sentinel 9999; it then holds that day of year. *)
Theorem returnDoy_valid_iff (start : Z) (image : Image) (p : pixel) (d : Z) :
  returnDoy start image p = Some d <->
  d = EE.toInt (doy start image) /\ d <> 9999 /\
  exists cover, band image p = Some cover /\ cover <= 5.
Proof. exact (returnDoy_some_iff start image p d). Qed.

(** ** Fuser and encoder together *)

(** When is a fused day a snow-free day?  For covers that are not
    negative the encoded pixel of a fused day is valid exactly when the
    day of year is not 9999 and either both sensors read at most 5, or
    one sensor reads between 1 and 5 and the other is masked; a single
    valid 0 does not count. *)
Theorem fused_day_snow_free (start : Z) (img : Image2) (p : pixel) (d : Z) :
  (forall a, band_primary img p = Some a -> 0 <= a) ->
  (forall b, band_secondary img p = Some b -> 0 <= b) ->
  returnDoy start (maxVal img) p = Some d <->
  d = EE.toInt (doy start (maxVal img)) /\ d <> 9999 /\
  ((exists a b, band_primary img p = Some a /\ band_secondary img p = Some b /\
                a <= 5 /\ b <= 5) \/
   (exists a, band_primary img p = Some a /\ band_secondary img p = None /\
              0 < a <= 5) \/
   (exists b, band_primary img p = None /\ band_secondary img p = Some b /\
              0 < b <= 5)).
Proof.
  intros Ha Hb. rewrite returnDoy_some_iff, (maxVal_cases img p Ha Hb).
  destruct (band_primary img p) as [a|] eqn:Ea,
           (band_secondary img p) as [b|] eqn:Eb.
  - split; intros (Hd & Hn & H); (split; [exact Hd | split; [exact Hn |]]).
    + destruct H as (c & [= <-] & Hc). left. exists a, b.
      repeat split; lia.
    + destruct H as [(a' & b' & [= <-] & [= <-] & H1 & H2)
                    |[(a' & _ & [=] & _)|(b' & [=] & _)]].
      exists (Z.max a b). split; [reflexivity | lia].
  - specialize (Ha a eq_refl).
    split; intros (Hd & Hn & H); (split; [exact Hd | split; [exact Hn |]]).
    + destruct H as (c & Hc & Hle). destruct (Z.eqb_spec a 0); [discriminate|].
      injection Hc as <-. right. left. exists a. repeat split; lia.
    + destruct H as [(a' & b' & _ & [=] & _)
                    |[(a' & [= <-] & _ & H1)|(b' & [=] & _)]].
      destruct (Z.eqb_spec a 0); [lia|]. exists a. split; [reflexivity | lia].
  - specialize (Hb b eq_refl).
    split; intros (Hd & Hn & H); (split; [exact Hd | split; [exact Hn |]]).
    + destruct H as (c & Hc & Hle). destruct (Z.eqb_spec b 0); [discriminate|].
      injection Hc as <-. right. right. exists b. repeat split; lia.
    + destruct H as [(a' & b' & [=] & _)
                    |[(a' & [=] & _)|(b' & _ & [= <-] & H1)]].
      destruct (Z.eqb_spec b 0); [lia|]. exists b. split; [reflexivity | lia].
  - split; intros (Hd & Hn & H); exfalso.
    + destruct H as (c & [=] & _).
    + destruct H as [(a' & b' & [=] & _)|[(a' & [=] & _)|(b' & _ & [=] & _)]].
Qed.

Lemma fused_day_snow_free_witness :
  (forall a, band_primary joined_day2 (0, 0) = Some a -> 0 <= a) /\
  (forall b, band_secondary joined_day2 (0, 0) = Some b -> 0 <= b) /\
  (returnDoy 0 (maxVal joined_day2) (0, 0) = Some 2 <->
   2 = EE.toInt (doy 0 (maxVal joined_day2)) /\ 2 <> 9999 /\
   ((exists a b, band_primary joined_day2 (0, 0) = Some a /\
                 band_secondary joined_day2 (0, 0) = Some b /\
                 a <= 5 /\ b <= 5) \/
    (exists a, band_primary joined_day2 (0, 0) = Some a /\
               band_secondary joined_day2 (0, 0) = None /\ 0 < a <= 5) \/
    (exists b, band_primary joined_day2 (0, 0) = None /\
               band_secondary joined_day2 (0, 0) = Some b /\ 0 < b <= 5))).
Proof.
  assert (H1 : forall a, band_primary joined_day2 (0, 0) = Some a -> 0 <= a)
    by (intros a [= <-]; lia).
  assert (H2 : forall b, band_secondary joined_day2 (0, 0) = Some b -> 0 <= b)
    by (intros b [= <-]; lia).
  split; [exact H1 | split; [exact H2 |]].
  apply (fused_day_snow_free 0 joined_day2 (0, 0) 2 H1 H2).
Defined.

(** With the earlier fuser a day is a snow-free day at a pixel exactly
    when both sensors are valid there and both read at most 5 (and the
    day of year is not 9999): the code 200 of a missing reading is
    above the threshold. *)
Theorem legacy_day_snow_free (start : Z) (img : Image2) (p : pixel) (d : Z) :
  returnDoy start (Legacy.maxVal img) p = Some d <->
  d = EE.toInt (doy start (Legacy.maxVal img)) /\ d <> 9999 /\
  exists a b, band_primary img p = Some a /\ band_secondary img p = Some b /\
              a <= 5 /\ b <= 5.
Proof.
  rewrite returnDoy_some_iff, legacy_maxVal_cases.
  destruct (band_primary img p) as [a|] eqn:Ea,
           (band_secondary img p) as [b|] eqn:Eb.
  - split; intros (Hd & Hn & H); (split; [exact Hd | split; [exact Hn |]]).
    + destruct H as (c & Hc & Hle). exists a, b.
      destruct (Z.ltb_spec a 100), (Z.ltb_spec b 100); cbn in Hc;
        injection Hc as <-; repeat split; lia.
    + destruct H as (a' & b' & [= <-] & [= <-] & H1 & H2).
      destruct (Z.ltb_spec a 100), (Z.ltb_spec b 100); try lia.
      cbn. exists (Z.max a b). split; [reflexivity | lia].
  - split; intros (Hd & Hn & H); exfalso.
    + destruct H as (c & [= <-] & Hle). lia.
    + destruct H as (a' & b' & _ & [=] & _).
  - split; intros (Hd & Hn & H); exfalso.
    + destruct H as (c & [= <-] & Hle). lia.
    + destruct H as (a' & b' & [=] & _).
  - split; intros (Hd & Hn & H); exfalso.
    + destruct H as (c & [= <-] & Hle). lia.
    + destruct H as (a' & b' & [=] & _).
Qed.

(** ** The daily join: which days survive, and in which order *)

Section DailyJoin.

Lemma innerJoin_intro (filt : Image -> Image -> bool) (a b : list Image)
    (x y : Image) :
  In x a -> In y b -> filt x y = true ->
  In (mkFeature x y) (EE.innerJoin filt a b).
Proof.
  intros Hx Hy Hf. unfold EE.innerJoin. apply in_flat_map.
  exists x. split; [exact Hx|]. apply in_map. apply filter_In. auto.
Qed.

Lemma StronglySorted_app (l1 l2 : list Z) :
  StronglySorted Z.le l1 -> StronglySorted Z.le l2 ->
  (forall x y, In x l1 -> In y l2 -> x <= y) ->
  StronglySorted Z.le (l1 ++ l2).
Proof.
  intros H1 H2 H. induction l1 as [|x l1 IH]; [exact H2|].
  cbn [app]. inversion H1 as [|? ? Hs Hf]; subst. constructor.
  - apply IH; [exact Hs|]. intros a b Ha Hb. apply H; [now right | exact Hb].
  - apply Forall_app. split; [exact Hf|].
    apply Forall_forall. intros y Hy. apply H; [now left | exact Hy].
Qed.

Lemma StronglySorted_const {A} (k : Z) (l : list A) :
  StronglySorted Z.le (map (fun _ => k) l).
Proof.
  induction l as [|x l IH]; cbn [map]; constructor; [exact IH|].
  apply Forall_forall. intros y Hy. apply in_map_iff in Hy.
  destruct Hy as (_ & <- & _). lia.
Qed.

Lemma insert_by_sorted {A} (key : A -> Z) (x : A) (l : list A) :
  StronglySorted Z.le (map key l) ->
  StronglySorted Z.le (map key (EE.insert_by key x l)).
Proof.
  induction l as [|y l IH]; intros Hs; cbn [EE.insert_by map].
  - constructor; constructor.
  - inversion Hs as [|? ? Hs' Hf]; subst.
    destruct (Z.leb_spec (key x) (key y)) as [Hle|Hlt]; cbn [map].
    + constructor; [exact Hs|]. constructor; [exact Hle|].
      apply Forall_forall. intros z Hz.
      rewrite Forall_forall in Hf. specialize (Hf z Hz). lia.
    + constructor; [apply IH, Hs'|].
      apply Forall_forall. intros z Hz. apply in_map_iff in Hz.
      destruct Hz as (w & <- & Hw). apply insert_by_In in Hw.
      destruct Hw as [->|Hw]; [lia|].
      rewrite Forall_forall in Hf. apply Hf. now apply in_map.
Qed.

Lemma sort_by_sorted {A} (key : A -> Z) (l : list A) :
  StronglySorted Z.le (map key (EE.sort_by key l)).
Proof.
  induction l as [|x l IH]; cbn [EE.sort_by fold_right map];
    [constructor|].
  apply insert_by_sorted. exact IH.
Qed.

Lemma innerJoin_sorted (filt : Image -> Image -> bool) (a b : list Image) :
  StronglySorted Z.le (map time_start a) ->
  StronglySorted Z.le
    (map (fun f => time_start (primary f)) (EE.innerJoin filt a b)).
Proof.
  induction a as [|x a IH]; intros Hs; [constructor|].
  cbn [map] in Hs. inversion Hs as [|? ? Hs' Hf]; subst.
  unfold EE.innerJoin. cbn [flat_map]. fold (EE.innerJoin filt a b).
  rewrite map_app, map_map. cbn [primary].
  apply StronglySorted_app.
  - apply StronglySorted_const.
  - apply IH, Hs'.
  - intros u v Hu Hv. apply in_map_iff in Hu. destruct Hu as (_ & <- & _).
    apply in_map_iff in Hv. destruct Hv as (f & <- & Hin).
    apply innerJoin_In in Hin. destruct Hin as (Hin & _).
    rewrite Forall_forall in Hf. apply Hf. now apply in_map.
Qed.

Variables terra aqua : Z -> list Image.

Lemma yearly_times (i : Z) :
  map time_start (yearlyCollection terra aqua i) =
  map (fun f => time_start (primary f)) (innerJoinedCollection terra aqua i).
Proof.
  unfold yearlyCollection, joinedCollection. now rewrite !map_map.
Qed.

Lemma yearly_sorted (i : Z) :
  StronglySorted Z.le (map time_start (yearlyCollection terra aqua i)).
Proof.
  rewrite yearly_times. apply innerJoin_sorted. apply sort_by_sorted.
Qed.

Lemma start_least (i s : Z) (img : Image) :
  start terra aqua i = Some s ->
  In img (yearlyCollection terra aqua i) -> s <= time_start img.
Proof.
  intros Hs Hin. pose proof (yearly_sorted i) as Hsort. unfold start in Hs.
  destruct (yearlyCollection terra aqua i) as [|x c]; [discriminate|].
  injection Hs as <-. cbn [map] in Hsort.
  inversion Hsort as [|? ? _ Hf]; subst.
  destruct Hin as [<-|Hin]; [lia|].
  rewrite Forall_forall in Hf. apply Hf. now apply in_map.
Qed.

End DailyJoin.

(** A timestamp is in the fused series of a year exactly when both
    sensors have an image with that timestamp: a day that one sensor
    misses is dropped without notice. *)
Theorem yearly_days_are_common_days
    (terra aqua : Z -> list Image) (i t : Z) :
  In t (map time_start (yearlyCollection terra aqua i)) <->
  In t (map time_start (terra i)) /\ In t (map time_start (aqua i)).
Proof.
  rewrite yearly_times, !in_map_iff. split.
  - intros (f & <- & Hf). apply innerJoin_In in Hf.
    destruct Hf as (Ha & Hb & Ht).
    apply (proj1 (sort_by_In time_start _ _)) in Ha.
    apply (proj1 (sort_by_In time_start _ _)) in Hb.
    unfold filterTimeEq in Ht. apply Z.eqb_eq in Ht.
    split; [exists (primary f) | exists (secondary f)]; auto.
  - intros ((x & <- & Hx) & (y & Hy & Hin)).
    exists (mkFeature x y). split; [reflexivity|].
    apply innerJoin_intro.
    + apply (sort_by_In time_start). exact Hx.
    + apply (sort_by_In time_start). exact Hin.
    + unfold filterTimeEq. apply Z.eqb_eq. now symmetry.
Qed.

(** Whatever the order of the catalog, the fused series of a year is in
    ascending order of timestamp, and [start] is its least timestamp. *)
Theorem yearly_ascending (terra aqua : Z -> list Image) (i : Z) :
  StronglySorted Z.le (map time_start (yearlyCollection terra aqua i)) /\
  (yearlyCollection terra aqua i <> [] ->
   exists s, start terra aqua i = Some s /\
             In s (map time_start (yearlyCollection terra aqua i)) /\
             forall img, In img (yearlyCollection terra aqua i) ->
                         s <= time_start img).
Proof.
  split; [apply yearly_sorted|].
  intros Hne. destruct (start terra aqua i) as [s|] eqn:Hs.
  - exists s. split; [reflexivity|]. split.
    + unfold start in Hs.
      destruct (yearlyCollection terra aqua i) as [|x c]; [discriminate|].
      injection Hs as <-. now left.
    + intros img Hin. apply (start_least terra aqua i s img Hs Hin).
  - unfold start in Hs.
    destruct (yearlyCollection terra aqua i); [contradiction | discriminate].
Qed.

(** ** Days of year in the loop *)

Section LoopDays.

Lemma valid_In {A} (l : list (option A)) (x : A) :
  In x (EE.valid l) <-> In (Some x) l.
Proof.
  induction l as [|[y|] l IH]; cbn [EE.valid In].
  - tauto.
  - rewrite IH. split; intros [H|H]; auto; left; congruence.
  - rewrite IH. split; [auto|]. intros [H|H]; [discriminate | exact H].
Qed.

Variables terra aqua : Z -> list Image.

Lemma snowMeltAcc_of_start (i s : Z) :
  start terra aqua i = Some s ->
  snowMeltAcc terra aqua i =
  Some (reduceYear (map (returnDoy s) (yearlyCollection terra aqua i))).
Proof.
  intros Hs. unfold snowMeltAcc, doyCollection. now rewrite Hs.
Qed.

Lemma start_some (i : Z) :
  yearlyCollection terra aqua i <> [] ->
  exists s, start terra aqua i = Some s.
Proof.
  intros Hne. unfold start.
  destruct (yearlyCollection terra aqua i) as [|x c]; [contradiction|].
  now exists (time_start x).
Qed.

Lemma doyCollection_positive (i s : Z) (p : pixel) (d : Z) :
  start terra aqua i = Some s ->
  In d (EE.valid (map (fun r => r p)
                      (map (returnDoy s) (yearlyCollection terra aqua i)))) ->
  1 <= d.
Proof.
  intros Hs Hd. apply valid_In in Hd. rewrite map_map in Hd.
  apply in_map_iff in Hd. destruct Hd as (img & Hr & Hin).
  apply returnDoy_some_iff in Hr. destruct Hr as (-> & _).
  apply toInt_doy_positive. apply (start_least terra aqua i s img Hs Hin).
Qed.

End LoopDays.

(** In a year with at least one joined day, melt and acc are valid at
    every pixel and 1 <= melt <= acc: no day of year below 1 is ever
    written, because [start] is the first day of the sorted series. *)
Theorem melt_at_least_one
    (terra aqua : Z -> list Image) (i : Z) (p : pixel) :
  yearlyCollection terra aqua i <> [] ->
  exists lo hi,
    melt terra aqua i p = Some lo /\ acc terra aqua i p = Some hi /\
    1 <= lo /\ lo <= hi.
Proof.
  intros Hne. destruct (start_some terra aqua i Hne) as (s & Hs).
  unfold melt, acc. rewrite (snowMeltAcc_of_start terra aqua i s Hs).
  destruct (reduceYear_cases
              (map (returnDoy s) (yearlyCollection terra aqua i)) p)
    as [(_ & Hlo & Hhi)|(_ & lo & hi & Hlo & Hhi & Hin & _ & H)].
  - exists 366, 366. repeat split; auto; lia.
  - exists lo, hi. repeat split; auto.
    + apply (doyCollection_positive terra aqua i s p lo Hs Hin).
    + apply (H lo Hin).
Qed.

Lemma melt_at_least_one_witness :
  yearlyCollection terra_sample aqua_sample 2003 <> [] /\
  exists lo hi,
    melt terra_sample aqua_sample 2003 (0, 0) = Some lo /\
    acc terra_sample aqua_sample 2003 (0, 0) = Some hi /\
    1 <= lo /\ lo <= hi.
Proof.
  assert (H : yearlyCollection terra_sample aqua_sample 2003 <> [])
    by (vm_compute; discriminate).
  split; [exact H|].
  apply (melt_at_least_one terra_sample aqua_sample 2003 (0, 0) H).
Defined.

(** ** When the loop ends, and what it leaves *)

Section LoopEnds.

Variables terra aqua : Z -> list Image.
Variable t0 : Z.

Lemma loop_body_none (st : Stacks) (i : Z) :
  loop_body terra aqua t0 st i = None <-> yearlyCollection terra aqua i = [].
Proof.
  unfold loop_body, snowMeltAcc, doyCollection, start.
  destruct (yearlyCollection terra aqua i) as [|x c].
  - tauto.
  - split; [|discriminate]. destruct (i =? t0); discriminate.
Qed.

Lemma loop_some_days (l : list Z) (st st' : Stacks) :
  loop terra aqua t0 st l = Some st' ->
  forall i, In i l -> yearlyCollection terra aqua i <> [].
Proof.
  revert st. induction l as [|j l IH]; intros st Hl i Hi; [destruct Hi|].
  cbn [loop] in Hl.
  destruct (loop_body terra aqua t0 st j) as [st1|] eqn:Hb; [|discriminate].
  destruct Hi as [<-|Hi].
  - intros He. apply (loop_body_none st j) in He. congruence.
  - apply (IH st1 Hl i Hi).
Qed.

End LoopEnds.

(** On the parsed numbers: the loop yields its two stacks exactly when
    [t0 <= t1] and every year from [t0] to [t1] has a joined day. *)
Lemma stacks_some_iff (terra aqua : Z -> list Image) (t0 t1 : Z) :
  (exists st, stacks terra aqua t0 t1 = Some st) <->
  t0 <= t1 /\
  forall i, t0 <= i <= t1 -> yearlyCollection terra aqua i <> [].
Proof.
  split.
  - intros (st & Hst). unfold stacks in Hst.
    destruct (Z.ltb_spec t1 t0) as [|Hle]; [discriminate|].
    split; [exact Hle|]. intros i Hi.
    apply (loop_some_days terra aqua t0 _ _ _ Hst).
    apply years_range. exact Hi.
  - intros (Hy & Hd). eexists. apply (stacks_spec terra aqua t0 t1 Hy Hd).
Qed.

(** The stacks of the sample catalog. *)
Lemma sample_stacks :
  stacks terra_sample aqua_sample 2003 2004 =
  Some {| snowMelt := map (meltImage terra_sample aqua_sample) [2003; 2004];
          snowAcc := map (accImage terra_sample aqua_sample) [2003; 2004] |}.
Proof.
  apply (stacks_spec terra_sample aqua_sample 2003 2004); [lia|].
  intros i _. vm_compute. discriminate.
Qed.

(** When the loop ends the two stacks are aligned: each holds one layer
    per year, [t1 - t0 + 1] in all, tagged with the years in ascending
    order, and the layer of a year holds that year's melt (acc). *)
Theorem stacks_aligned (terra aqua : Z -> list Image) (t0 t1 : Z)
    (st : Stacks) :
  stacks terra aqua t0 t1 = Some st ->
  map time_start (snowMelt st) = years t0 t1 /\
  map time_start (snowAcc st) = years t0 t1 /\
  length (snowMelt st) = Z.to_nat (t1 - t0 + 1) /\
  length (snowAcc st) = Z.to_nat (t1 - t0 + 1) /\
  NoDup (map time_start (snowMelt st)) /\
  forall p,
    map (fun img => band img p) (snowMelt st) =
      map (fun i => melt terra aqua i p) (years t0 t1) /\
    map (fun img => band img p) (snowAcc st) =
      map (fun i => acc terra aqua i p) (years t0 t1).
Proof.
  intros Hst.
  assert (Hdef : t0 <= t1 /\
                 forall i, t0 <= i <= t1 ->
                           yearlyCollection terra aqua i <> []).
  { split.
    - unfold stacks in Hst. destruct (Z.ltb_spec t1 t0); [discriminate|lia].
    - intros i Hi. unfold stacks in Hst.
      destruct (Z.ltb_spec t1 t0); [discriminate|].
      apply (loop_some_days terra aqua t0 _ _ _ Hst).
      apply years_range. exact Hi. }
  destruct Hdef as [Hy Hd].
  rewrite (stacks_spec terra aqua t0 t1 Hy Hd) in Hst. injection Hst as <-.
  cbn [snowMelt snowAcc]. rewrite !map_map, !length_map. cbn [time_start].
  rewrite !map_id.
  assert (Hlen : length (years t0 t1) = Z.to_nat (t1 - t0 + 1))
    by (unfold years; now rewrite length_map, length_seq).
  repeat split; auto using years_NoDup; now rewrite map_map.
Qed.

Lemma stacks_aligned_witness :
  exists st,
    stacks terra_sample aqua_sample 2003 2004 = Some st /\
    map time_start (snowMelt st) = [2003; 2004] /\
    length (snowAcc st) = 2%nat.
Proof.
  eexists. split; [exact sample_stacks|].
  destruct (stacks_aligned terra_sample aqua_sample 2003 2004 _ sample_stacks)
    as (H1 & _ & _ & H4 & _).
  split; [exact H1 | exact H4].
Defined.

(** A year in which Aqua has no image stops the loop. *)
Example stacks_aqua_gap :
  stacks terra_sample aqua_gap 2003 2005 = None /\
  yearlyCollection terra_sample aqua_gap 2004 = [].
Proof. split; reflexivity. Qed.

(** ** The median season length *)

Section Median.

Lemma median_bounds (l : list Z) (lo hi : Z) :
  l <> [] -> (forall x, In x l -> lo <= x <= hi) ->
  exists m, EE.median l = Some m /\
            (inject_Z lo <= m)%Q /\ (m <= inject_Z hi)%Q.
Proof.
  intros Hne Hb. unfold EE.median. cbv zeta.
  set (s := EE.sort_by (fun x => x) l).
  assert (Hlen : length s = length l) by apply sort_by_length.
  assert (Hnth : forall k, (k < length s)%nat -> lo <= nth k s 0 <= hi).
  { intros k Hk. apply Hb. apply (sort_by_In (fun x => x)).
    apply nth_In. exact Hk. }
  destruct l as [|x l]; [contradiction|]. cbn [length] in Hlen.
  rewrite Hlen.
  assert (H1 : (Nat.div2 (S (length l)) < length s)%nat)
    by (rewrite Hlen; apply Nat.lt_div2; lia).
  assert (H2 : (Nat.div2 (S (length l)) - 1 < length s)%nat) by lia.
  pose proof (Hnth _ H1) as B1. pose proof (Hnth _ H2) as B2.
  destruct (Nat.odd (S (length l))); eexists; (split; [reflexivity|]).
  - split; rewrite <- Zle_Qle; lia.
  - set (a := nth (Nat.div2 (S (length l)) - 1) s 0) in *.
    set (b := nth (Nat.div2 (S (length l))) s 0) in *.
    unfold Qle, Qdiv, Qmult, Qplus, Qinv, inject_Z. cbn [Qnum Qden].
    cbn [Pos.mul]. split; lia.
Qed.

Variables terra aqua : Z -> list Image.
Variables t0 t1 : Z.

Lemma stacks_some_inv (st : Stacks) :
  stacks terra aqua t0 t1 = Some st ->
  t0 <= t1 /\
  forall i, t0 <= i <= t1 -> yearlyCollection terra aqua i <> [].
Proof.
  intros Hst. unfold stacks in Hst.
  destruct (Z.ltb_spec t1 t0) as [|Hle]; [discriminate|].
  split; [exact Hle|]. intros i Hi.
  apply (loop_some_days terra aqua t0 _ _ _ Hst).
  apply years_range. exact Hi.
Qed.

Lemma snowFree_values (st : Stacks) (p : pixel) :
  stacks terra aqua t0 t1 = Some st ->
  EE.valid (map (fun img => band img p) (snowFree st)) <> [] /\
  forall v, In v (EE.valid (map (fun img => band img p) (snowFree st))) <->
            exists img, In img (snowFree st) /\ band img p = Some v.
Proof.
  intros Hst. destruct (stacks_some_inv st Hst) as [Hy Hd]. split.
  - rewrite (snowFree_spec terra aqua t0 t1 Hy Hd st Hst).
    destruct (years_first t0 t1 Hy) as (l & Hl & _). rewrite Hl.
    cbn [map difference concatBands time_start2 band_primary band_secondary
             primary secondary band meltImage accImage].
    destruct (melt_acc_valid terra aqua t0 t1 Hd t0 p (conj (Z.le_refl _) Hy))
      as (lo & hi & Hlo & Hhi & _).
    unfold EE.subtract, EE.map2. rewrite Hlo, Hhi. cbn [EE.valid].
    discriminate.
  - intros v. rewrite valid_In, in_map_iff. split.
    + intros (img & Hb & Hin). exists img. auto.
    + intros (img & Hin & Hb). exists img. auto.
Qed.

End Median.

(** When the loop ends, the median season length is valid at every
    pixel, lies between the smallest and the largest yearly season
    length there, and is never negative; [snowFreeMask] is therefore
    never masked, it is 0 or 1. *)
Theorem snowFreeMedian_between
    (terra aqua : Z -> list Image) (t0 t1 : Z) (st : Stacks) (p : pixel) :
  stacks terra aqua t0 t1 = Some st ->
  exists m,
    snowFreeMedian st p = Some m /\
    (0 <= m)%Q /\
    (forall lo hi,
       (forall img v, In img (snowFree st) -> band img p = Some v ->
                      lo <= v <= hi) ->
       (inject_Z lo <= m)%Q /\ (m <= inject_Z hi)%Q) /\
    snowFreeMask st p = Some (EE.b2z (EE.Qltb m 306)).
Proof.
  intros Hst. destruct (stacks_some_inv terra aqua t0 t1 st Hst) as [Hy Hd].
  destruct (snowFree_values terra aqua t0 t1 st p Hst) as [Hne Hval].
  unfold snowFreeMask, EE.lt, EE.map1, snowFreeMedian.
  set (vs := EE.valid (map (fun img => band img p) (snowFree st))) in *.
  assert (Hpos : forall x, In x vs -> 0 <= x <= fold_right Z.max 0 vs).
  { intros x Hx. split.
    - apply Hval in Hx. destruct Hx as (img & Hin & Hb).
      destruct (snowFree_pixel terra aqua t0 t1 Hy Hd st img p Hst Hin)
        as (lo & hi & _ & _ & _ & Hle & Hb').
      rewrite Hb in Hb'. injection Hb' as ->. lia.
    - clear - Hx. induction vs as [|y l IH]; [destruct Hx|].
      cbn [fold_right]. destruct Hx as [->|Hx]; [lia|].
      specialize (IH Hx). lia. }
  destruct (median_bounds vs 0 _ Hne Hpos) as (m & Hm & Hlo & _).
  exists m. split; [exact Hm|]. split; [exact Hlo|]. split.
  - intros lo hi Hb.
    destruct (median_bounds vs lo hi Hne) as (m' & Hm' & H).
    + intros x Hx. apply Hval in Hx. destruct Hx as (img & Hin & Hv).
      apply (Hb img x Hin Hv).
    + rewrite Hm in Hm'. injection Hm' as <-. exact H.
  - rewrite Hm. reflexivity.
Qed.

Lemma snowFreeMedian_between_witness :
  exists st m,
    stacks terra_sample aqua_sample 2003 2004 = Some st /\
    snowFreeMedian st (0, 0) = Some m /\ (0 <= m)%Q.
Proof.
  destruct (snowFreeMedian_between terra_sample aqua_sample 2003 2004 _
              (0, 0) sample_stacks) as (m & Hm & Hpos & _).
  eexists. exists m. split; [exact sample_stacks|]. auto.
Defined.

(** ** A single year *)

Section SingleYear.

Lemma years_single (t : Z) : years t t = [t].
Proof.
  unfold years. replace (t - t + 1) with 1 by lia.
  change (Z.to_nat 1) with 1%nat. cbn [seq map Z.of_nat].
  now rewrite Z.add_0_r.
Qed.

Lemma Qltb_inject_Z (x k : Z) : EE.Qltb (inject_Z x) k = (x <? k).
Proof.
  destruct (Z.ltb_spec x k) as [H|H].
  - apply Qltb_spec. rewrite <- Zlt_Qlt. exact H.
  - destruct (EE.Qltb (inject_Z x) k) eqn:E; [|reflexivity].
    apply Qltb_spec in E. rewrite <- Zlt_Qlt in E. lia.
Qed.

End SingleYear.

(** With a single year ([t0 = t1]) the median season length is that
    year's season length, so the mask keeps a pixel exactly when
    [acc - melt < 306] in that year. *)
Theorem single_year_median
    (terra aqua : Z -> list Image) (t : Z) (st : Stacks) (p : pixel) :
  stacks terra aqua t t = Some st ->
  exists lo hi,
    melt terra aqua t p = Some lo /\ acc terra aqua t p = Some hi /\
    snowFreeMedian st p = Some (inject_Z (hi - lo)) /\
    snowFreeMask st p = Some (EE.b2z (hi - lo <? 306)).
Proof.
  intros Hst. destruct (stacks_some_inv terra aqua t t st Hst) as [Hy Hd].
  destruct (melt_acc_valid terra aqua t t Hd t p (conj Hy Hy))
    as (lo & hi & Hlo & Hhi & _).
  exists lo, hi. split; [exact Hlo|]. split; [exact Hhi|].
  assert (Hmed : snowFreeMedian st p = Some (inject_Z (hi - lo))).
  { unfold snowFreeMedian.
    rewrite (snowFree_spec terra aqua t t Hy Hd st Hst), years_single.
    cbn [map difference concatBands time_start2 band_primary band_secondary
             primary secondary band meltImage accImage].
    unfold EE.subtract, EE.map2. rewrite Hlo, Hhi. reflexivity. }
  split; [exact Hmed|].
  unfold snowFreeMask, EE.lt, EE.map1. rewrite Hmed. cbn [option_map].
  now rewrite Qltb_inject_Z.
Qed.

Lemma sample_stacks_single :
  stacks terra_sample aqua_sample 2003 2003 =
  Some {| snowMelt := map (meltImage terra_sample aqua_sample) [2003];
          snowAcc := map (accImage terra_sample aqua_sample) [2003] |}.
Proof.
  apply (stacks_spec terra_sample aqua_sample 2003 2003); [lia|].
  intros i _. vm_compute. discriminate.
Qed.

Lemma single_year_median_witness :
  exists st,
    stacks terra_sample aqua_sample 2003 2003 = Some st /\
    snowFreeMedian st (0, 0) = Some (inject_Z 1) /\
    snowFreeMask st (0, 0) = Some 1.
Proof.
  eexists. split; [exact sample_stacks_single|].
  destruct (single_year_median terra_sample aqua_sample 2003 _ (0, 0)
              sample_stacks_single) as (lo & hi & Hlo & Hhi & Hm & Hk).
  assert (Hl : Some lo = Some 2) by (rewrite <- Hlo; reflexivity).
  assert (Hh : Some hi = Some 3) by (rewrite <- Hhi; reflexivity).
  injection Hl as ->. injection Hh as ->.
  split; [exact Hm | exact Hk].
Defined.

(** ** The points of the regression *)

Section Regression.

Lemma valid_points (f : Z -> option Z) (l : list Z) :
  (forall i, In i l -> exists y, f i = Some y) ->
  map fst (EE.valid (map (fun i => match Some i, f i with
                                   | Some x, Some y => Some (x, y)
                                   | _, _ => None
                                   end) l)) = l.
Proof.
  induction l as [|i l IH]; intros H; [reflexivity|].
  cbn [map]. destruct (H i (or_introl eq_refl)) as (y & ->).
  cbn [EE.valid map fst]. f_equal. apply IH.
  intros j Hj. apply H. now right.
Qed.

End Regression.

(** When the loop ends, the regression of the melt day on the year
    receives at every pixel exactly one point per processed year, in
    year order: the point of year [i] is [(i, melt i)].  No year is left
    out: a year in which the pixel is masked on every image of both
    sensors contributes the point [(i, 366)]. *)
Theorem regression_points
    (terra aqua : Z -> list Image) (t0 t1 : Z) (st : Stacks) (p : pixel) :
  stacks terra aqua t0 t1 = Some st ->
  map fst (regressionPoints st p) = years t0 t1 /\
  (forall i y, In (i, y) (regressionPoints st p) <->
               t0 <= i <= t1 /\ melt terra aqua i p = Some y) /\
  (forall i, t0 <= i <= t1 -> masked_all_year terra aqua p i ->
             In (i, 366) (regressionPoints st p)).
Proof.
  intros Hst. destruct (stacks_some_inv terra aqua t0 t1 st Hst) as [Hy Hd].
  assert (Hpts : regressionPoints st p =
                 EE.valid (map (fun i => match Some i, melt terra aqua i p with
                                         | Some x, Some y => Some (x, y)
                                         | _, _ => None
                                         end) (years t0 t1))).
  { rewrite (stacks_spec terra aqua t0 t1 Hy Hd) in Hst. injection Hst as <-.
    unfold regressionPoints, fitPoints. cbn [snowMelt].
    now rewrite !map_map. }
  assert (Hin : forall i y, In (i, y) (regressionPoints st p) <->
                            t0 <= i <= t1 /\ melt terra aqua i p = Some y).
  { intros i y. rewrite Hpts, valid_In, in_map_iff. split.
    - intros (j & Hj & Hjy). apply years_range in Hjy.
      destruct (melt terra aqua j p) as [v|] eqn:Hv; [|discriminate].
      injection Hj as <- <-. auto.
    - intros (Hi & Hm). exists i. rewrite Hm. split; [reflexivity|].
      apply years_range. exact Hi. }
  split; [|split; [exact Hin|]].
  - rewrite Hpts. apply valid_points. intros i Hi.
    apply years_range in Hi.
    destruct (melt_acc_valid terra aqua t0 t1 Hd i p Hi) as (lo & _ & Hlo & _).
    now exists lo.
  - intros i Hi Hm. apply Hin. split; [exact Hi|].
    apply (melt_acc_masked terra aqua t0 t1 p Hd i Hi Hm).
Qed.

Lemma regression_points_witness :
  exists st,
    stacks terra_sample aqua_sample 2003 2004 = Some st /\
    map fst (regressionPoints st (1, 1)) = [2003; 2004] /\
    In (2003, 366) (regressionPoints st (1, 1)).
Proof.
  eexists. split; [exact sample_stacks|].
  destruct (regression_points terra_sample aqua_sample 2003 2004 _ (1, 1)
              sample_stacks) as (H1 & _ & H3).
  split; [exact H1|].
  apply H3; [lia|].
  intros img [H|H]; cbn in H; destruct H as [<-|[<-|[<-|[]]]]; reflexivity.
Defined.

(** ** Melt is the first snow-free day, acc the last *)

Section FirstLast.

Lemma toInt_doy_monotone (start : Z) (img img' : Image) :
  start <= time_start img -> time_start img <= time_start img' ->
  EE.toInt (doy start img) <= EE.toInt (doy start img').
Proof.
  intros H1 H2. unfold EE.toInt.
  rewrite (truncate_doy start img H1), (truncate_doy start img') by lia.
  assert ((time_start img - start) / EE.msPerDay
          <= (time_start img' - start) / EE.msPerDay)
    by (apply Z.div_le_mono; unfold EE.msPerDay; lia).
  lia.
Qed.

Lemma encoded_sorted (s : Z) (p : pixel) (c : list Image) :
  (forall img, In img c -> s <= time_start img) ->
  StronglySorted Z.le (map time_start c) ->
  StronglySorted Z.le (EE.valid (map (fun img => returnDoy s img p) c)).
Proof.
  induction c as [|x c IH]; intros Hs Hsort; [constructor|].
  cbn [map] in *. inversion Hsort as [|? ? Hsort' Hf]; subst.
  assert (IH' : StronglySorted Z.le
                  (EE.valid (map (fun img => returnDoy s img p) c)))
    by (apply IH; [intros img Hin; apply Hs; now right | exact Hsort']).
  destruct (returnDoy s x p) as [d|] eqn:Hd; cbn [EE.valid]; [|exact IH'].
  constructor; [exact IH'|].
  apply Forall_forall. intros e He. apply valid_In in He.
  apply in_map_iff in He. destruct He as (y & Hy & Hin).
  apply returnDoy_some_iff in Hd. destruct Hd as (-> & _).
  apply returnDoy_some_iff in Hy. destruct Hy as (-> & _).
  apply toInt_doy_monotone; [apply Hs; now left|].
  rewrite Forall_forall in Hf. apply Hf. now apply in_map.
Qed.

Lemma minimum_sorted (l : list Z) :
  StronglySorted Z.le l ->
  match EE.minimum l with Some m => m | None => 366 end = hd 366 l.
Proof.
  intros Hs. destruct l as [|x l]; [reflexivity|]. cbn [EE.minimum hd].
  destruct (fold_min_spec l x) as [_ Hle].
  inversion Hs as [|? ? _ Hf]; subst. rewrite Forall_forall in Hf.
  destruct (fold_min_spec l x) as [[Hin|Hin] _]; [now symmetry|].
  specialize (Hf _ Hin). specialize (Hle x (or_introl eq_refl)). lia.
Qed.

Lemma last_greatest (l : list Z) (x : Z) :
  StronglySorted Z.le (x :: l) ->
  In (last (x :: l) 366) (x :: l) /\
  forall y, In y (x :: l) -> y <= last (x :: l) 366.
Proof.
  revert x. induction l as [|z l IH]; intros x Hs.
  - cbn. split; [now left | intros y [<-|[]]; lia].
  - inversion Hs as [|? ? Hs' Hf]; subst.
    destruct (IH z Hs') as [Hin Hle].
    change (last (x :: z :: l) 366) with (last (z :: l) 366).
    split; [now right|]. intros y [<-|Hy]; [|apply Hle, Hy].
    rewrite Forall_forall in Hf.
    specialize (Hf z (or_introl eq_refl)).
    specialize (Hle z (or_introl eq_refl)). lia.
Qed.

Lemma maximum_sorted (l : list Z) :
  StronglySorted Z.le l ->
  match EE.maximum l with Some m => m | None => 366 end = last l 366.
Proof.
  intros Hs. destruct l as [|x l]; [reflexivity|]. cbn [EE.maximum].
  destruct (fold_max_spec l x) as [Hin Hge].
  destruct (last_greatest l x Hs) as [Hin' Hle].
  specialize (Hge _ Hin'). specialize (Hle _ Hin). lia.
Qed.

End FirstLast.

(** In a year with at least one joined day the valid days of year of a
    pixel come in ascending order along the fused series; melt is the
    first of them and acc the last, and both are 366 when there is
    none. *)
Theorem melt_first_acc_last
    (terra aqua : Z -> list Image) (i s : Z) (p : pixel) :
  start terra aqua i = Some s ->
  StronglySorted Z.le
    (EE.valid (map (fun img => returnDoy s img p)
                   (yearlyCollection terra aqua i))) /\
  melt terra aqua i p =
    Some (hd 366 (EE.valid (map (fun img => returnDoy s img p)
                                (yearlyCollection terra aqua i)))) /\
  acc terra aqua i p =
    Some (last (EE.valid (map (fun img => returnDoy s img p)
                              (yearlyCollection terra aqua i))) 366).
Proof.
  intros Hs.
  assert (Hsort : StronglySorted Z.le
            (EE.valid (map (fun img => returnDoy s img p)
                           (yearlyCollection terra aqua i)))).
  { apply encoded_sorted; [|apply yearly_sorted].
    intros img Hin. apply (start_least terra aqua i s img Hs Hin). }
  split; [exact Hsort|].
  unfold melt, acc. rewrite (snowMeltAcc_of_start terra aqua i s Hs).
  unfold reduceYear, EE.reduce_minMax, EE.unmask.
  cbn [constant_min constant_max]. rewrite map_map.
  rewrite <- (minimum_sorted _ Hsort), <- (maximum_sorted _ Hsort).
  split.
  - destruct (EE.minimum _); reflexivity.
  - destruct (EE.maximum _); reflexivity.
Qed.

Lemma melt_first_acc_last_witness :
  start terra_sample aqua_sample 2003 = Some 0 /\
  EE.valid (map (fun img => returnDoy 0 img (0, 0))
                (yearlyCollection terra_sample aqua_sample 2003)) = [2; 3] /\
  melt terra_sample aqua_sample 2003 (0, 0) = Some 2 /\
  acc terra_sample aqua_sample 2003 (0, 0) = Some 3.
Proof.
  assert (Hs : start terra_sample aqua_sample 2003 = Some 0) by reflexivity.
  assert (Hd : EE.valid (map (fun img => returnDoy 0 img (0, 0))
                   (yearlyCollection terra_sample aqua_sample 2003)) = [2; 3])
    by reflexivity.
  split; [exact Hs | split; [exact Hd |]].
  destruct (melt_first_acc_last terra_sample aqua_sample 2003 0 (0, 0) Hs)
    as (_ & Hlo & Hhi).
  rewrite Hd in Hlo, Hhi. split; [exact Hlo | exact Hhi].
Defined.

(** ** The year settings as texts *)

Section SettingsText.

Lemma to_int_not_nil (z : Z) :
  Z.to_int z <> Decimal.Pos Decimal.Nil /\
  Z.to_int z <> Decimal.Neg Decimal.Nil.
Proof.
  destruct z as [|q|q]; cbn; split; try discriminate;
    intros [= H]; apply (Unsigned.to_uint_nonnil q H).
Qed.

Lemma toString_inj (a b : Z) : toString a = toString b -> a = b.
Proof.
  unfold toString. intros H.
  apply (f_equal NilZero.int_of_string) in H.
  destruct (to_int_not_nil a) as [Ha1 Ha2].
  destruct (to_int_not_nil b) as [Hb1 Hb2].
  rewrite !NilZero.isi in H by assumption.
  injection H as H. apply to_int_inj. exact H.
Qed.

Lemma toString_eqb (i n : Z) :
  String.eqb (toString i) (toString n) = (i =? n).
Proof.
  destruct (Z.eqb_spec i n) as [->|Hn].
  - apply String.eqb_refl.
  - apply String.eqb_neq. intros H. apply Hn, toString_inj, H.
Qed.

Lemma years_none (n m : Z) : m < n -> years n m = [].
Proof.
  intros H. unfold years.
  replace (Z.to_nat (m - n + 1)) with 0%nat by lia. reflexivity.
Qed.

Variables terra aqua : Z -> list Image.
Variable n : Z.

Lemma loop_body_text_canonical (st : option Stacks) (st0 : Stacks) (i : Z) :
  (st = Some st0 \/ i = n) ->
  loop_body_text terra aqua (toString n) st i = loop_body terra aqua n st0 i.
Proof.
  intros Hst. unfold loop_body_text, loop_body.
  destruct (snowMeltAcc terra aqua i) as [mm|]; [|reflexivity].
  rewrite toString_eqb. destruct (Z.eqb_spec i n) as [Hi|Hi]; [reflexivity|].
  destruct Hst as [->|Hn]; [reflexivity | contradiction].
Qed.

Lemma loop_text_canonical (l : list Z) (st : Stacks) :
  loop_text terra aqua (toString n) (Some st) l =
  option_map Some (loop terra aqua n st l).
Proof.
  revert st. induction l as [|i l IH]; intros st; [reflexivity|].
  cbn [loop_text loop].
  rewrite (loop_body_text_canonical (Some st) st i) by now left.
  destruct (loop_body terra aqua n st i) as [st'|]; [apply IH | reflexivity].
Qed.

Variable parseInt : string -> option Z.
Variables t0 t1 : string.
Variable m : Z.

Hypothesis parse_t0 : parseInt t0 = Some n.
Hypothesis parse_t1 : parseInt t1 = Some m.

(** A setting [t0] that is the decimal text of its number: the texts
    compare as the numbers do, and the loop is the loop on the numbers. *)
Lemma stacks_text_canonical :
  toString n = t0 ->
  stacks_text parseInt terra aqua t0 t1 = stacks terra aqua n m.
Proof.
  intros <-. unfold stacks_text, stacks. rewrite parse_t0, parse_t1.
  destruct (Z.ltb_spec m n) as [Hlt|Hle].
  - now rewrite (years_none n m Hlt).
  - destruct (years_first n m Hle) as (l & -> & _). cbn [loop_text loop].
    rewrite (loop_body_text_canonical None (mkStacks [] []) n) by now right.
    destruct (loop_body terra aqua n _ n) as [st'|]; [|reflexivity].
    rewrite loop_text_canonical.
    destruct (loop terra aqua n st' l); reflexivity.
Qed.

(** Any other text for [t0] sends the first pass to [merge] on the
    undefined stacks. *)
Lemma stacks_text_not_canonical :
  toString n <> t0 -> stacks_text parseInt terra aqua t0 t1 = None.
Proof.
  intros Hc. unfold stacks_text. rewrite parse_t0, parse_t1.
  destruct (Z.ltb_spec m n) as [Hlt|Hle].
  - now rewrite (years_none n m Hlt).
  - destruct (years_first n m Hle) as (l & -> & _). cbn [loop_text].
    unfold loop_body_text.
    destruct (snowMeltAcc terra aqua n); [|reflexivity].
    apply String.eqb_neq in Hc. now rewrite Hc.
Qed.

End SettingsText.

(** The settings as the script holds them, two texts that [parseInt]
    reads as the integers [n] and [m] (within the range in which the
    language counts exactly): the loop yields its two stacks exactly
    when [t0] is the decimal text of [n], [n <= m] and every year from
    [n] to [m] has at least one joined day; the stacks are then those of
    the loop on the numbers.  A [t0] written otherwise, such as 02003,
    stops the script in the first pass. *)
Theorem stacks_text_defined_iff
    (parseInt : string -> option Z) (terra aqua : Z -> list Image)
    (t0 t1 : string) (n m : Z) :
  parseInt t0 = Some n -> parseInt t1 = Some m ->
  - 2 ^ 53 < n -> m < 2 ^ 53 ->
  ((exists st, stacks_text parseInt terra aqua t0 t1 = Some st) <->
   toString n = t0 /\ n <= m /\
   forall i, n <= i <= m -> yearlyCollection terra aqua i <> []) /\
  (forall st, stacks_text parseInt terra aqua t0 t1 = Some st ->
              stacks terra aqua n m = Some st) /\
  (toString n <> t0 -> stacks_text parseInt terra aqua t0 t1 = None).
Proof.
  intros H0 H1 _ _.
  assert (Hcan : forall st, stacks_text parseInt terra aqua t0 t1 = Some st ->
                            toString n = t0).
  { intros st Hst. destruct (String.eqb_spec (toString n) t0) as [H|H];
      [exact H|].
    rewrite (stacks_text_not_canonical terra aqua n parseInt t0 t1 m H0 H1 H)
      in Hst. discriminate. }
  split; [|split].
  - split.
    + intros (st & Hst). pose proof (Hcan st Hst) as Hc.
      split; [exact Hc|].
      rewrite (stacks_text_canonical terra aqua n parseInt t0 t1 m H0 H1 Hc)
        in Hst.
      apply (proj1 (stacks_some_iff terra aqua n m)). now exists st.
    + intros (Hc & Hle & Hd).
      rewrite (stacks_text_canonical terra aqua n parseInt t0 t1 m H0 H1 Hc).
      apply (proj2 (stacks_some_iff terra aqua n m)). auto.
  - intros st Hst.
    rewrite <- (stacks_text_canonical terra aqua n parseInt t0 t1 m H0 H1
                  (Hcan st Hst)).
    exact Hst.
  - apply (stacks_text_not_canonical terra aqua n parseInt t0 t1 m H0 H1).
Qed.

Lemma stacks_text_defined_iff_witness :
  parseInt_sample "2003" = Some 2003 /\
  parseInt_sample "2004" = Some 2004 /\
  - 2 ^ 53 < 2003 /\ 2004 < 2 ^ 53 /\
  (exists st,
     stacks_text parseInt_sample terra_sample aqua_sample "2003" "2004"
     = Some st) /\
  parseInt_sample "02003" = Some 2003 /\
  stacks_text parseInt_sample terra_sample aqua_sample "02003" "2004" = None.
Proof.
  assert (H0 : parseInt_sample "2003" = Some 2003) by reflexivity.
  assert (H1 : parseInt_sample "2004" = Some 2004) by reflexivity.
  assert (H2 : - 2 ^ 53 < 2003) by (vm_compute; reflexivity).
  assert (H3 : 2004 < 2 ^ 53) by (vm_compute; reflexivity).
  assert (H0' : parseInt_sample "02003" = Some 2003) by reflexivity.
  split; [exact H0 | split; [exact H1 | split; [exact H2 | split; [exact H3|]]]].
  destruct (stacks_text_defined_iff parseInt_sample terra_sample aqua_sample
              "2003" "2004" 2003 2004 H0 H1 H2 H3) as (Hiff & _ & _).
  split.
  - apply (proj2 Hiff). split; [reflexivity|]. split; [lia|].
    intros i _. vm_compute. discriminate.
  - split; [exact H0'|].
    destruct (stacks_text_defined_iff parseInt_sample terra_sample aqua_sample
                "02003" "2004" 2003 2004 H0' H1 H2 H3) as (_ & _ & Hnone).
    apply Hnone. vm_compute. discriminate.
Defined.
